(** * Moosey CMS: a shallow embedding of [cache.py], [helpers.py],
    [models.py] and [main.py], and the properties of the design
    document checked on it.

    Part I holds the model: the Python built-ins and values the code
    works on, the parts of [cachetools] and [pathlib] it calls, and one
    module per component of [cache.py], [helpers.py], [models.py] and
    [main.py].
    Part II holds the properties.

    Conventions.
    - Python [str] is [string]; characters are bytes, so [title] and the
      case tests are exact on ASCII text.
    - Calls into the operating system or into third-party packages
      (path resolution, directory listing, Jinja, inflection, slugify,
      front-matter parsing) are Section variables: the properties hold
      for whatever these calls return.
    - A raised exception is a value of [outcome].
    - The timer of the caches is read in nanoseconds, and passed to
      every cache operation. *)

From Stdlib Require Import String Ascii List Bool Arith ZArith Lia.
From Stdlib Require Import Permutation Sorted.
From Stdlib Require OrderedTypeEx.
Import ListNotations.
Open Scope string_scope.
Open Scope list_scope.
Set Warnings "-register-all".

(* ================================================================== *)
(** * Part I.  The model                                               *)
(* ================================================================== *)

(** ** Python built-ins on [str] *)

Module PyStr.

Definition nonempty (s : string) : bool := negb (s =? "").

(** [s.lstrip(c)] for a one-character [c]. *)
Fixpoint lstrip (c : ascii) (s : string) : string :=
  match s with
  | String a s' => if Ascii.eqb a c then lstrip c s' else s
  | EmptyString => EmptyString
  end.

(** [s.rstrip(c)]: a character goes when it is [c] and all that follows
    it went too. *)
Fixpoint rstrip (c : ascii) (s : string) : string :=
  match s with
  | String a s' =>
      let r := rstrip c s' in
      if Ascii.eqb a c && (r =? "") then EmptyString else String a r
  | EmptyString => EmptyString
  end.

(** [s.strip(c)]. *)
Definition strip (c : ascii) (s : string) : string := rstrip c (lstrip c s).

(** [s.split(sep)] for a one-character separator; never the empty list. *)
Fixpoint split (sep : ascii) (s : string) : list string :=
  match s with
  | EmptyString => [EmptyString]
  | String a s' =>
      if Ascii.eqb a sep then EmptyString :: split sep s'
      else match split sep s' with
           | w :: ws => String a w :: ws
           | [] => [String a EmptyString]
           end
  end.

(** [sep.join(parts)]. *)
Definition join (sep : string) (parts : list string) : string :=
  String.concat sep parts.

(** [c in s]. *)
Fixpoint contains_char (c : ascii) (s : string) : bool :=
  match s with
  | String a s' => Ascii.eqb a c || contains_char c s'
  | EmptyString => false
  end.

(** [s.startswith(p)]. *)
Definition startswith (p s : string) : bool := String.prefix p s.

(** [s.replace(old, new)] for a non-empty [old]: the occurrences are
    replaced from the left and do not overlap.  [skip] counts the
    characters of a matched occurrence still to be dropped. *)
Fixpoint replace_from (old new : string) (skip : nat) (s : string) : string :=
  match s with
  | EmptyString => EmptyString
  | String a s' =>
      match skip with
      | S k => replace_from old new k s'
      | O =>
          if String.prefix old s
          then new ++ replace_from old new (String.length old - 1)%nat s'
          else String a (replace_from old new 0 s')
      end
  end.

Definition replace (old new s : string) : string := replace_from old new 0 s.

Definition is_lower (a : ascii) : bool :=
  let n := nat_of_ascii a in ((97 <=? n) && (n <=? 122))%nat.

Definition is_upper (a : ascii) : bool :=
  let n := nat_of_ascii a in ((65 <=? n) && (n <=? 90))%nat.

Definition to_upper (a : ascii) : ascii :=
  if is_lower a then ascii_of_nat (nat_of_ascii a - 32)%nat else a.

Definition to_lower (a : ascii) : ascii :=
  if is_upper a then ascii_of_nat (nat_of_ascii a + 32)%nat else a.

(** [s.title()]: a cased character is upper-cased when it follows an
    uncased one (or starts the string), lower-cased otherwise. *)
Fixpoint title_from (previous_is_cased : bool) (s : string) : string :=
  match s with
  | EmptyString => EmptyString
  | String a s' =>
      if is_lower a then
        String (if previous_is_cased then a else to_upper a) (title_from true s')
      else if is_upper a then
        String (if previous_is_cased then to_lower a else a) (title_from true s')
      else String a (title_from false s')
  end.

Definition title (s : string) : string := title_from false s.

(** [s.rfind(".")]: the index of the last dot. *)
Fixpoint rfind_dot (s : string) : option nat :=
  match s with
  | EmptyString => None
  | String a s' =>
      match rfind_dot s' with
      | Some i => Some (S i)
      | None => if Ascii.eqb a "."%char then Some 0 else None
      end
  end.

End PyStr.

(** ** Outcomes of a Python call *)

Inductive exn : Type :=
| ValueError (msg : string)
| TypeError (msg : string)
| KeyError
| ValidationError (field : string) (msg : string)
| OtherError (msg : string).

Inductive outcome (A : Type) : Type :=
| Return (v : A)
| Raise (e : exn).

Arguments Return {A} v.
Arguments Raise {A} e.

Definition raises {A} (o : outcome A) : Prop := exists e, o = Raise e.

(** ** [helpers.py]: template resolution *)

Module Templates.

Section Resolution.

(** [template_exists(templates, name)]: whether the Jinja loader finds
    [name] ([get_template] does not raise [TemplateNotFound]). *)
Variable template_exists : string -> bool.

(** [inflection.singularize]. *)
Variable singularize : string -> string.

(** [[p for p in path_str.strip("/").split("/") if p]]. *)
Definition path_parts (path_str : string) : list string :=
  filter PyStr.nonempty (PyStr.split "/"%char (PyStr.strip "/"%char path_str)).

(** ["/".join(parts) + ".html"]. *)
Definition html (parts : list string) : string :=
  PyStr.join "/" parts ++ ".html".

(** The [while len(parts) > 0] loop.  The list is only ever shortened
    from its end by [parts.pop()], so its value inside the loop is
    [firstn n parts] where [n] counts the segments left; an iteration
    either returns or goes on with [n - 1]. *)
Fixpoint parent_search (is_index_file : bool) (parts : list string) (n : nat)
  : string :=
  match n with
  | O => "page.html"
  | S m =>
      let cur := firstn n parts in
      let current_folder := last cur "" in
      let parent_path := removelast cur in
      let singular_candidate := html (parent_path ++ [singularize current_folder]) in
      let plural_candidate := html cur in
      if negb is_index_file && template_exists singular_candidate
      then singular_candidate
      else if template_exists plural_candidate then plural_candidate
      else parent_search is_index_file parts m
  end.

Definition find_best_template (path_str : string) (is_index_file : bool)
  : string :=
  let parts := path_parts path_str in
  if (Nat.eqb (length parts) 0) && template_exists "index.html"
  then "index.html"
  else if negb is_index_file then
    let candidate := html parts in
    if template_exists candidate then candidate
    else parent_search false parts (pred (length parts))
  else parent_search true parts (length parts).

End Resolution.

(** A template directory given by the list of its file names. *)
Definition in_dir (names : list string) (name : string) : bool :=
  existsb (String.eqb name) names.

End Templates.

(** ** Python values *)

Module Py.

(** The values that reach the cache layer.  Mappings have string keys
    (keyword arguments, front-matter, JSON-like data) and are kept as
    association lists in insertion order; a [set] carries its elements
    in iteration order. *)
Inductive PyVal : Type :=
| PNone
| PBool (b : bool)
| PInt (z : Z)
| PStr (s : string)
| PDatetime (timestamp : Z)
| PPath (parts : list string)
| PObject (id : nat)            (* hashed and compared by identity *)
| PKwMark                       (* cachetools' keyword marker *)
| PTuple (items : list PyVal)
| PList (items : list PyVal)
| PSet (items : list PyVal)
| PDict (items : list (string * PyVal)).

Definition Args : Type := list PyVal.
Definition Kwargs : Type := list (string * PyVal).

(** [d.get(k)]. *)
Fixpoint dict_get (k : string) (d : Kwargs) : option PyVal :=
  match d with
  | [] => None
  | (k', v) :: d' => if k' =? k then Some v else dict_get k d'
  end.

(** [d[k] = v]: an existing key keeps its place. *)
Fixpoint dict_set (k : string) (v : PyVal) (d : Kwargs) : Kwargs :=
  match d with
  | [] => [(k, v)]
  | (k', v') :: d' => if k' =? k then (k, v) :: d' else (k', v') :: dict_set k v d'
  end.

(** [hash(v)] succeeds. *)
Fixpoint hashable (v : PyVal) : bool :=
  match v with
  | PTuple items => forallb hashable items
  | PList _ | PSet _ | PDict _ => false
  | _ => true
  end.

Definition num (v : PyVal) : option Z :=
  match v with
  | PBool b => Some (if b then 1 else 0)%Z
  | PInt z => Some z
  | _ => None
  end.

Fixpoint list_eqb {A} (eqb : A -> A -> bool) (l1 l2 : list A) : bool :=
  match l1, l2 with
  | [], [] => true
  | x :: l1', y :: l2' => eqb x y && list_eqb eqb l1' l2'
  | _, _ => false
  end.

(** [a == b].  [True == 1] holds as in Python; a tuple never equals a
    list; sets compare by mutual inclusion and mappings by their
    entries, whatever the order. *)
Fixpoint py_eq (a b : PyVal) {struct a} : bool :=
  match a, b with
  | PNone, PNone => true
  | PBool _, _ | PInt _, _ =>
      match num a, num b with
      | Some x, Some y => Z.eqb x y
      | _, _ => false
      end
  | PStr s, PStr t => s =? t
  | PDatetime s, PDatetime t => Z.eqb s t
  | PPath p, PPath q => list_eqb String.eqb p q
  | PObject i, PObject j => Nat.eqb i j
  | PKwMark, PKwMark => true
  | PTuple xs, PTuple ys | PList xs, PList ys =>
      (fix go (xs ys : list PyVal) {struct xs} : bool :=
         match xs, ys with
         | [], [] => true
         | x :: xs', y :: ys' => py_eq x y && go xs' ys'
         | _, _ => false
         end) xs ys
  | PSet xs, PSet ys =>
      let sub :=
        (fix sub (xs : list PyVal) : bool :=
           match xs with
           | [] => true
           | x :: xs' => existsb (py_eq x) ys && sub xs'
           end) xs in
      sub && Nat.eqb (length xs) (length ys)
  | PDict xs, PDict ys =>
      (fix sub (xs : Kwargs) : bool :=
         match xs with
         | [] => true
         | (k, v) :: xs' =>
             match dict_get k ys with
             | Some w => py_eq v w && sub xs'
             | None => false
             end
         end) xs && Nat.eqb (length xs) (length ys)
  | _, _ => false
  end.

(** Insertion of one [(key, value)] item into a list sorted by key; an
    item goes before the first one that is not smaller, which makes the
    sort below stable. *)
Fixpoint insert_item (x : string * PyVal) (l : Kwargs) : Kwargs :=
  match l with
  | [] => [x]
  | y :: l' =>
      if String.ltb (fst y) (fst x) then y :: insert_item x l' else x :: l
  end.

(** [sorted(d.items())].  The keys of a mapping are distinct, so the
    comparison of two [(key, value)] tuples is decided by the keys. *)
Definition sorted_items (l : Kwargs) : Kwargs := fold_right insert_item [] l.

Definition item_tuple (kv : string * PyVal) : PyVal :=
  PTuple [PStr (fst kv); snd kv].

(** The equal arguments that [make_hashable] brings to one form: the
    same value, or sequences of the same type related element by
    element, or mappings with the related entries in whatever order.
    This is only a part of Python's equality ([py_eq]): two equal sets
    that iterate in different orders are not related, and they do not
    get one key. *)
Inductive struct_eq : PyVal -> PyVal -> Prop :=
| se_same (v : PyVal) : struct_eq v v
| se_tuple (xs ys : list PyVal) :
    Forall2 struct_eq xs ys -> struct_eq (PTuple xs) (PTuple ys)
| se_list (xs ys : list PyVal) :
    Forall2 struct_eq xs ys -> struct_eq (PList xs) (PList ys)
| se_dict (xs xs' ys : Kwargs) :
    NoDup (map fst xs) -> Permutation xs xs' ->
    Forall2 (fun x y => fst x = fst y /\ struct_eq (snd x) (snd y)) xs' ys ->
    struct_eq (PDict xs) (PDict ys).

End Py.

(** ** [cachetools]: [TTLCache] and [hashkey] *)

Module Cachetools.
Import Py.

(** The timer is read in nanoseconds. *)
Definition second : Z := 1000000000.

Record Link : Type := mkLink { key : PyVal; value : PyVal; expires : Z }.

(** [links] is ordered from least to most recently used. *)
Record TTLCache : Type := mkCache { maxsize : nat; ttl : Z; links : list Link }.

Definition with_links (c : TTLCache) (ls : list Link) : TTLCache :=
  mkCache (maxsize c) (ttl c) ls.

Definition has_key (k : PyVal) (l : Link) : bool := py_eq (key l) k.

Definition find_link (k : PyVal) (c : TTLCache) : option Link :=
  find (has_key k) (links c).

Definition without (k : PyVal) (ls : list Link) : list Link :=
  filter (fun l => negb (has_key k l)) ls.

Definition live (now : Z) (l : Link) : bool := Z.ltb now (expires l).

(** [key in cache]: present and not expired; no reordering. *)
Definition contains (now : Z) (k : PyVal) (c : TTLCache) : bool :=
  match find_link k c with
  | Some l => live now l
  | None => false
  end.

(** [cache[key]]: the link becomes the most recently used; an expired
    or missing key raises [KeyError]. *)
Definition getitem (now : Z) (k : PyVal) (c : TTLCache)
  : outcome PyVal * TTLCache :=
  match find_link k c with
  | Some l =>
      let c' := with_links c (without k (links c) ++ [l]) in
      if live now l then (Return (value l), c') else (Raise KeyError, c')
  | None => (Raise KeyError, c)
  end.

(** [cache.expire(now)]; with a fixed [ttl] and a monotonic timer the
    expired links are exactly those no longer live. *)
Definition expire (now : Z) (ls : list Link) : list Link := filter (live now) ls.

(** [cache[key] = value] (every value has size 1): expired links go,
    then, for a new key, least recently used links are popped until
    there is room, and the link is stored as most recently used with
    expiry [now + ttl]. *)
Definition setitem (now : Z) (k v : PyVal) (c : TTLCache)
  : outcome unit * TTLCache :=
  let ls := expire now (links c) in
  if Nat.ltb (maxsize c) 1 then
    (Raise (ValueError "value too large"), with_links c ls)
  else
    let ls' :=
      if existsb (has_key k) ls then ls
      else skipn (length ls + 1 - maxsize c) ls in
    (Return tt, with_links c (without k ls' ++ [mkLink k v (now + ttl c)])).

(** [cache.clear()]. *)
Definition clear (c : TTLCache) : TTLCache := with_links c [].

(** [hashkey] on positional and keyword arguments: the positional
    arguments, then, when
    there are keyword arguments, the marker and the sorted items
    flattened. *)
Definition hashkey (args : Args) (kwargs : Kwargs) : PyVal :=
  PTuple (args ++
          match kwargs with
          | [] => []
          | _ => PKwMark :: flat_map (fun kv => [PStr (fst kv); snd kv])
                              (sorted_items kwargs)
          end).

End Cachetools.

(** ** [cache.py] *)

Module Cache.
Import Py Cachetools.

(** [cache = TTLCache(maxsize=1000, ttl=3600 * 24 * 30)]. *)
Definition cache : TTLCache := mkCache 1000 (3600 * 24 * 30 * second) [].

(** The anonymous [TTLCache(maxsize=100, ttl=5)] of the debounce. *)
Definition debounce_cache : TTLCache := mkCache 100 (5 * second) [].

(** [make_hashable(value)]: mappings become the sorted tuple of their
    [(key, normalized value)] items, lists and sets the tuple of their
    normalized elements, anything else is returned as it is. *)
Fixpoint make_hashable (value : PyVal) : PyVal :=
  match value with
  | PDict items =>
      PTuple (map item_tuple
                (sorted_items
                   ((fix norm (items : Kwargs) : Kwargs :=
                       match items with
                       | [] => []
                       | (k, v) :: items' => (k, make_hashable v) :: norm items'
                       end) items)))
  | PList items | PSet items => PTuple (map make_hashable items)
  | _ => value
  end.

(** [{k: make_hashable(v) for k, v in kwargs.items()}]. *)
Definition make_hashable_items (items : Kwargs) : Kwargs :=
  map (fun kv => (fst kv, make_hashable (snd kv))) items.

(** The wrapped function: it receives the arguments and the shared
    cache (a cached function may itself call cached functions). *)
Definition Func : Type := Args -> Kwargs -> TTLCache -> outcome PyVal * TTLCache.

(** One call of [func] made by the wrapper, with what it was passed. *)
Definition Call : Type := (Args * Kwargs)%type.

(** The key the wrapper looks up. *)
Definition cache_key (args : Args) (kwargs : Kwargs) : PyVal :=
  let safe_args := map make_hashable args in
  let safe_kwargs := make_hashable_items kwargs in
  hashkey safe_args safe_kwargs.

(** [cache_fn(cache)(func)(args, kwargs)].  [now] is the timer at the
    lookup and [later] the timer when the result is stored.  The third
    component lists the calls of [func] the wrapper made.  Hashing the
    key is the first thing the lookup does, so an unhashable key raises
    before [func] runs. *)
Definition wrapper (func : Func) (args : Args) (kwargs : Kwargs)
  (now later : Z) (cache : TTLCache)
  : outcome PyVal * TTLCache * list Call :=
  let key := cache_key args kwargs in
  if negb (hashable key) then
    (Raise (TypeError "unhashable type"), cache, [])
  else if contains now key cache then
    let (r, cache') := getitem now key cache in (r, cache', [])
  else
    match func args kwargs cache with
    | (Raise e, cache1) => (Raise e, cache1, [(args, kwargs)])
    | (Return result, cache1) =>
        match setitem later key result cache1 with
        | (Raise e, cache2) => (Raise e, cache2, [(args, kwargs)])
        | (Return _, cache2) => (Return result, cache2, [(args, kwargs)])
        end
    end.

(** The process state the change hook works on: the shared cache, the
    debounce cache, and a count of the executions of [clear_cache]. *)
Record State : Type := mkState {
  main : TTLCache;
  debounce : TTLCache;
  clears : nat
}.

(** [clear_cache()]. *)
Definition clear_cache (st : State) : State :=
  mkState (clear (main st)) (debounce st) (S (clears st)).

(** [clear_cache_on_file_change(file_path, event_type)] under
    [@cached(TTLCache(maxsize=100, ttl=5))]: the key is
    [hashkey(file_path, event_type)]; on [KeyError] the body runs and
    its result [None] is stored, a [ValueError] of the store being
    ignored. *)
Definition clear_cache_on_file_change (file_path event_type : string)
  (now : Z) (st : State) : outcome PyVal * State :=
  let k := hashkey [PStr file_path; PStr event_type] [] in
  match getitem now k (debounce st) with
  | (Return v, d) => (Return v, mkState (main st) d (clears st))
  | (Raise _, d) =>
      let st1 := clear_cache (mkState (main st) d (clears st)) in
      let (_, d') := setitem now k PNone (debounce st1) in
      (Return PNone, mkState (main st1) d' (clears st1))
  end.

(** A change notification: path, event type, time of delivery. *)
Definition Notification : Type := (string * string * Z)%type.

Definition notify (n : Notification) (st : State) : State :=
  let '(file_path, event_type, now) := n in
  snd (clear_cache_on_file_change file_path event_type now st).

(** The notifications delivered one after the other. *)
Definition deliver (ns : list Notification) (st : State) : State :=
  fold_left (fun st n => notify n st) ns st.

End Cache.

(** ** [pathlib] paths *)

Module PyPath.

(** An absolute POSIX path, as the names below the root. *)
Definition Path : Type := list string.

(** The segments of a path string: empty and "." segments are dropped
    when a path is built. *)
Definition segments (s : string) : list string :=
  filter (fun p => PyStr.nonempty p && negb (p =? "."))
         (PyStr.split "/"%char s).

(** [base / s] on POSIX paths, where a leading slash is what makes
    [s] absolute: an absolute [s] replaces [base].  (On Windows a drive
    or a backslash root in [s] replaces [base] too; nothing below
    relies on the join for a path that is not POSIX.) *)
Definition joinpath (base : Path) (s : string) : Path :=
  if PyStr.startswith "/" s then segments s else base ++ segments s.

(** [p.relative_to(other)]; [None] stands for the [ValueError]. *)
Fixpoint relative_to (p other : Path) {struct other} : option (list string) :=
  match other with
  | [] => Some p
  | o :: other' =>
      match p with
      | x :: p' => if x =? o then relative_to p' other' else None
      | [] => None
      end
  end.

(** [p.is_relative_to(other)]. *)
Definition is_relative_to (p other : Path) : bool :=
  match relative_to p other with Some _ => true | None => false end.

(** [str(rel)] for a relative path. *)
Definition str_relative (parts : list string) : string :=
  match parts with
  | [] => "."
  | _ => PyStr.join "/" parts
  end.

(** [p.name]. *)
Definition name (p : Path) : string := last p "".

(** [p.stem]: the name up to its last dot, unless that dot starts or
    ends the name. *)
Definition stem (p : Path) : string :=
  let n := name p in
  match PyStr.rfind_dot n with
  | Some i =>
      if Nat.ltb 0 i && Nat.ltb i (String.length n - 1)
      then String.substring 0 i n else n
  | None => n
  end.

End PyPath.

(** ** [helpers.py]: the secure path resolver *)

Module SecurePath.
Import PyPath.

Section Resolver.

(** [Path.resolve()]: the canonical physical path, symlinks and ".."
    followed; [None] when the call raises [OSError]. *)
Variable resolve : Path -> option Path.

Definition get_secure_target (user_path : string) (relative_to_path : Path)
  : outcome Path :=
  if PyStr.contains_char zero user_path then
    Raise (ValueError "Security Alert: Null byte detected in path.")
  else
    let clean_path := PyStr.strip "/"%char user_path in
    let naive_path := joinpath relative_to_path clean_path in
    match resolve naive_path with
    | None => Raise (ValueError "Invalid characters in path.")
    | Some resolved_path =>
        if negb (is_relative_to resolved_path relative_to_path) then
          Raise (ValueError ("Path Traversal Attempt: " ++ user_path))
        else Return resolved_path
    end.

End Resolver.

End SecurePath.

(** ** [helpers.py]: the markdown loader *)

Module Loader.
Import Py PyPath.

(** [frontmatter.Post] with the [html] attribute the loader adds. *)
Record Post : Type := mkPost {
  metadata : Kwargs;
  content : string;
  html : string
}.

Definition bind {A B} (o : outcome A) (f : A -> outcome B) : outcome B :=
  match o with
  | Return v => f v
  | Raise e => Raise e
  end.

Section Load.

(** [frontmatter.load(file)]: the metadata and the body. *)
Variable frontmatter_load : Path -> outcome (Kwargs * string).

(** [file.stat()]: [st_mtime] and [st_ctime]. *)
Variable stat : Path -> outcome (Z * Z).

(** [slugify] of python-slugify. *)
Variable slugify : string -> string.

(** [parse_markdown] of [md.py]. *)
Variable parse_markdown : string -> outcome string.

(** [datetime.fromtimestamp(t)], a datetime kept by its timestamp. *)
Definition fromtimestamp (t : Z) : PyVal := PDatetime t.

Definition parse_markdown_file (file : Path) : outcome Post :=
  bind (frontmatter_load file) (fun data =>
  bind (stat file) (fun stats =>
  let metadata1 :=
    dict_set "date"
      (PDict [("updated", fromtimestamp (fst stats));
              ("created", fromtimestamp (snd stats))])
      (fst data) in
  let metadata2 := dict_set "slug" (PStr (slugify (stem file))) metadata1 in
  bind (parse_markdown (snd data)) (fun html =>
  Return (mkPost metadata2 (snd data) html)))).

End Load.

End Loader.

(** ** [helpers.py]: the sandboxed renderer *)

Module Renderer.
Import Py Cachetools Cache.

(** A Jinja environment, by its filters and globals. *)
Record Environment : Type := mkEnv { filters : Kwargs; globals : Kwargs }.

(** [d.update(other)]. *)
Definition dict_update (d other : Kwargs) : Kwargs :=
  fold_left (fun acc kv => dict_set (fst kv) (snd kv) acc) other d.

Definition whitelist : list string := ["site_data"; "site_code"; "mode"].

(** [ensure_sandbox_filters(main_templates)] on [_safe_env]. *)
Definition ensure_sandbox_filters (main_env safe_env : Environment)
  : Environment :=
  match filters safe_env with
  | [] =>
      let safe_globals :=
        filter (fun kv => existsb (String.eqb (fst kv)) whitelist)
               (globals main_env) in
      mkEnv (dict_update (filters safe_env) (filters main_env))
            (dict_update (globals safe_env) safe_globals)
  | _ => safe_env
  end.

(** What the renderer returns: a plain [str] or a [Markup]. *)
Inductive Rendered : Type :=
| Plain (s : string)
| Markup (s : string).

(** [try: body except Exception as e: handler(e)]. *)
Definition try_except {A} (body : outcome A) (handler : exn -> outcome A)
  : outcome A :=
  match body with
  | Return v => Return v
  | Raise e => handler e
  end.

Section Render.

Variable Template : Type.

(** [_safe_env.from_string(content)]. *)
Variable from_string : Environment -> string -> outcome Template.

(** [template.render] on the unpacked [data]. *)
Variable render : Template -> Kwargs -> outcome string.

(** The body of the [try] block, after the sandbox has been synced. *)
Definition evaluate (env : Environment) (content : string) (data : Kwargs)
  (safe : bool) : outcome Rendered :=
  Loader.bind (from_string env content) (fun template =>
  Loader.bind (render template data) (fun rendered =>
  Return (if safe then Markup rendered else Plain rendered))).

(** The function under the decorator, with the module-level
    [_safe_env] passed in and out. *)
Definition template_render_content_body (templates : Environment)
  (content : string) (data : Kwargs) (safe : bool) (safe_env : Environment)
  : outcome Rendered * Environment :=
  if content =? "" then (Return (Plain ""), safe_env)
  else
    let env := ensure_sandbox_filters templates safe_env in
    (try_except (evaluate env content data safe)
                (fun _ => Return (Plain content)),
     env).

(** [Markup(rendered)] of markupsafe, as a value the cache can hold. *)
Variable markup : string -> PyVal.

Definition returned (r : outcome Rendered) : outcome PyVal :=
  match r with
  | Return (Plain s) => Return (PStr s)
  | Return (Markup s) => Return (markup s)
  | Raise e => Raise e
  end.

(** [template_render_content(templates, content, data, safe)] as the
    module exports it, under [@cache_fn]: the key is built from the
    four arguments, the [templates] object being hashed by its
    identity, before anything else; on a miss the body runs and what
    it returns is stored.  The shared cache and [_safe_env] are passed
    in and out; [_safe_env] is only touched when the body runs. *)
Definition template_render_content (templates_id : nat)
  (templates : Environment) (content : string) (data : Kwargs) (safe : bool)
  (now later : Z) (cache : TTLCache) (safe_env : Environment)
  : outcome PyVal * TTLCache * Environment :=
  let body := template_render_content_body templates content data safe safe_env in
  let func : Func := fun _ _ c => (returned (fst body), c) in
  match wrapper func [PObject templates_id; PStr content; PDict data; PBool safe]
          [] now later cache with
  | (r, cache', []) => (r, cache', safe_env)
  | (r, cache', _ :: _) => (r, cache', snd body)
  end.

End Render.

End Renderer.

(** ** [helpers.py]: directory navigation *)

Module Navigation.
Import PyPath.

Record NavItem : Type := mkItem {
  item_name : string;
  url : string;
  is_active : bool;
  is_dir : bool
}.

Definition backslash : string := String (ascii_of_nat 92) EmptyString.

(** The sort key [(not x.is_dir(), x.name)] and its order: [False]
    before [True], then the names. *)
Definition key_ltb (a b : bool * string) : bool :=
  if Bool.eqb (fst a) (fst b) then String.ltb (snd a) (snd b)
  else negb (fst a).

Fixpoint insert_entry (x : bool * string) (l : list (bool * string))
  : list (bool * string) :=
  match l with
  | [] => [x]
  | y :: l' => if key_ltb y x then y :: insert_entry x l' else x :: l
  end.

Definition sort_entries (l : list (bool * string)) : list (bool * string) :=
  fold_right insert_entry [] l.

Section Scan.

(** The file system calls; [Raise] stands for an [OSError]. *)
Variable fs_exists : Path -> outcome bool.
Variable fs_is_dir : Path -> outcome bool.

(** [folder.iterdir()], by the names of the children. *)
Variable fs_iterdir : Path -> outcome (list string).

Variable physical_folder : Path.
Variable current_url : string.
Variable relative_to_path : Path.

(** The URL built from the relative path of an entry. *)
Definition entry_url (rel_path : list string) : string :=
  let url_slug :=
    PyStr.replace backslash "/" (PyStr.replace ".md" "" (str_relative rel_path)) in
  "/" ++ url_slug.

(** The display name of an entry. *)
Definition display_name (entry : Path) : string :=
  PyStr.title (PyStr.replace "-" " " (stem entry)).

(** One turn of the loop: [Return None] is [continue]. *)
Definition visit (entry_name : string) : outcome (option NavItem) :=
  let entry := physical_folder ++ [entry_name] in
  if PyStr.startswith "." entry_name then Return None
  else if entry_name =? "index.md" then Return None
  else
    Loader.bind (fs_is_dir entry) (fun d =>
    Loader.bind
      (if d then
         Loader.bind (fs_exists (entry ++ ["index.md"])) (fun e => Return (negb e))
       else Return false)
      (fun skip =>
    if skip then Return None
    else
      match relative_to entry relative_to_path with
      | None => Return None
      | Some rel_path =>
          let u := entry_url rel_path in
          Loader.bind (fs_is_dir entry) (fun d' =>
          Return (Some (mkItem (display_name entry) u (u =? current_url) d')))
      end)).

(** The loop over the sorted entries; an [OSError] ends it with the
    items gathered so far. *)
Fixpoint scan (entries : list string) (items : list NavItem) : list NavItem :=
  match entries with
  | [] => items
  | n :: rest =>
      match visit n with
      | Raise _ => items
      | Return None => scan rest items
      | Return (Some item) => scan rest (items ++ [item])
      end
  end.

(** The keys are computed for all entries before the sort. *)
Fixpoint sort_keys (names : list string) : outcome (list (bool * string)) :=
  match names with
  | [] => Return []
  | n :: rest =>
      Loader.bind (fs_is_dir (physical_folder ++ [n])) (fun d =>
      Loader.bind (sort_keys rest) (fun keys => Return ((negb d, n) :: keys)))
  end.

Definition get_directory_navigation : outcome (list NavItem) :=
  Loader.bind (fs_exists physical_folder) (fun e =>
  Loader.bind (if e then fs_is_dir physical_folder else Return false) (fun d =>
  if negb d then Return []
  else
    match Loader.bind (fs_iterdir physical_folder) sort_keys with
    | Raise _ => Return []
    | Return keys => Return (scan (map snd (sort_entries keys)) [])
    end)).

End Scan.

End Navigation.

(** ** [models.py] *)

Module Models.
Import Py.

(** The field types that occur in the models. *)
Inductive Ty : Type :=
| TStr
| THttpUrl
| TListOf (t : Ty)
| TDictOf (t : Ty)
| TOptional (t : Ty)
| TModel.

(** A declared field: its name, its type, and its default when the
    declaration gives one.  A field without default is required. *)
Record Field : Type := mkField {
  fname : string;
  ftype : Ty;
  fdefault : option PyVal
}.

Section Validation.

(** pydantic's check of an [HttpUrl]. *)
Variable valid_http_url : string -> bool.

(** The validator of the nested model, for [TModel]. *)
Variable valid_model : PyVal -> bool.

(** Whether a value is accepted for a type. *)
Fixpoint accepts (t : Ty) (v : PyVal) : bool :=
  match t, v with
  | TStr, PStr _ => true
  | THttpUrl, PStr s => valid_http_url s
  | TListOf t', (PList items | PTuple items | PSet items) =>
      forallb (accepts t') items
  | TDictOf t', PDict items => forallb (fun kv => accepts t' (snd kv)) items
  | TOptional _, PNone => true
  | TOptional t', _ => accepts t' v
  | TModel, _ => valid_model v
  | _, _ => false
  end.

(** Construction of a model from keyword data: every declared field is taken from the data and
    checked, or from its default; a required field that is missing is
    an error.  Undeclared keys are ignored. *)
Fixpoint construct (fields : list Field) (data : Kwargs) : outcome Kwargs :=
  match fields with
  | [] => Return []
  | f :: rest =>
      let value :=
        match dict_get (fname f) data with
        | Some v =>
            if accepts (ftype f) v then Return v
            else Raise (ValidationError (fname f) "Input is not valid")
        | None =>
            match fdefault f with
            | Some d => Return d
            | None => Raise (ValidationError (fname f) "Field required")
            end
        end in
      Loader.bind value (fun v =>
      Loader.bind (construct rest data) (fun vs => Return ((fname f, v) :: vs)))
  end.

End Validation.

(** [class OpenGraph(BaseModel)]. *)
Definition OpenGraph_fields : list Field :=
  [mkField "og_image" TStr None].

Definition is_return {A} (o : outcome A) : bool :=
  match o with Return _ => true | Raise _ => false end.

Definition OpenGraph_valid (valid_http_url : string -> bool) (v : PyVal) : bool :=
  match v with
  | PDict data =>
      is_return (construct valid_http_url (fun _ => false) OpenGraph_fields data)
  | _ => false
  end.

(** [class SiteData(BaseModel)], field by field as declared. *)
Definition SiteData_fields : list Field :=
  [mkField "name" (TOptional TStr) (Some PNone);
   mkField "keywords" (TOptional (TListOf TStr)) (Some PNone);
   mkField "description" (TOptional TStr) (Some PNone);
   mkField "author" (TOptional TStr) (Some PNone);
   mkField "social" (TOptional (TDictOf THttpUrl)) (Some PNone);
   mkField "open_graph" (TOptional TModel) None].

(** Construction of a [SiteData] from keyword data. *)
Definition SiteData (valid_http_url : string -> bool) (data : Kwargs)
  : outcome Kwargs :=
  construct valid_http_url (OpenGraph_valid valid_http_url) SiteData_fields data.

End Models.

(** ** [helpers.py]: breadcrumbs *)

Module Breadcrumbs.

Record Crumb : Type := mkCrumb { crumb_name : string; crumb_url : string }.

(** One turn of the [for p in parts] loop on [(current, crumbs)]. *)
Definition step (state : string * list Crumb) (p : string)
  : string * list Crumb :=
  let current := (fst state ++ "/" ++ p)%string in
  (current,
   snd state ++ [mkCrumb (PyStr.title (PyStr.replace "-" " " p)) current]).

Definition get_breadcrumbs (url_path : string) : list Crumb :=
  let parts := Templates.path_parts url_path in
  let crumbs := [mkCrumb "Home" "/"] in
  let current := "" in
  snd (fold_left step parts (current, crumbs)).

End Breadcrumbs.

(** ** [main.py]: the live-reload connection manager *)

Module ConnectionManager.

(** A socket, by its identity. *)
Definition WebSocket : Type := nat.

(** [l.remove(x)] where [x in l]: the first occurrence goes. *)
Fixpoint remove_first (x : WebSocket) (l : list WebSocket) : list WebSocket :=
  match l with
  | [] => []
  | y :: l' => if Nat.eqb y x then l' else y :: remove_first x l'
  end.

(** [connect], once the socket has been accepted. *)
Definition connect (websocket : WebSocket) (active_connections : list WebSocket)
  : list WebSocket :=
  active_connections ++ [websocket].

Definition disconnect (websocket : WebSocket)
  (active_connections : list WebSocket) : list WebSocket :=
  if existsb (Nat.eqb websocket) active_connections
  then remove_first websocket active_connections
  else active_connections.

Section Broadcast.

(** [send_text(message)] on a socket: [true] when it returns, [false]
    when it raises. *)
Variable send_text : WebSocket -> bool.

(** What the other tasks do to the live list while a send is awaited,
    by the position of the send in the broadcast. *)
Variable meanwhile : nat -> list WebSocket -> list WebSocket.

(** The loop over the snapshot [active_connections[:]]: the live list,
    and the sockets the message went out to. *)
Fixpoint broadcast_loop (snapshot : list WebSocket) (i : nat)
  (active_connections delivered : list WebSocket)
  : list WebSocket * list WebSocket :=
  match snapshot with
  | [] => (active_connections, delivered)
  | connection :: rest =>
      let live := meanwhile i active_connections in
      if send_text connection
      then broadcast_loop rest (S i) live (delivered ++ [connection])
      else broadcast_loop rest (S i) (disconnect connection live) delivered
  end.

Definition broadcast (active_connections : list WebSocket)
  : list WebSocket * list WebSocket :=
  broadcast_loop active_connections 0 active_connections [].

End Broadcast.

End ConnectionManager.

(** ** [main.py]: from the URL to the file that is served *)

Module Routes.
Import PyPath SecurePath.

(** What steps 1 to 4 of [catch_all] end in: the 404 response, the
    file to load with the flag and the path the later steps use, or an
    exception that no handler of these steps catches. *)
Inductive Located : Type :=
| NotFound
| Found (target_file : Path) (is_index : bool) (clean_path : string)
| Uncaught (e : exn).

(** The default of the page title in the context:
    [clean_path.split("/")[-1].replace("-", " ").title()]. *)
Definition default_title (clean_path : string) : string :=
  PyStr.title (PyStr.replace "-" " " (last (PyStr.split "/"%char clean_path) "")).

Section CatchAll.

Variable resolve : Path -> option Path.

(** [Path.is_dir()] and [Path.exists()]. *)
Variable fs_is_dir : Path -> outcome bool.
Variable fs_exists : Path -> outcome bool.

(** [dirs["content"]]. *)
Variable content_dir : Path.

(** Step 1. *)
Definition normalize (full_path : string) : string :=
  let clean_path := PyStr.strip "/"%char full_path in
  if clean_path =? "" then "index" else clean_path.

(** [try: helpers.get_secure_target(...) except ValueError: 404]. *)
Definition secure (user_path : string) (next : Path -> Located) : Located :=
  match get_secure_target resolve user_path content_dir with
  | Return p => next p
  | Raise (ValueError _) => NotFound
  | Raise e => Uncaught e
  end.

(** Step 4. *)
Definition existence_check (target_file : Path) (is_index : bool)
  (clean_path : string) : Located :=
  match fs_exists target_file with
  | Return true => Found target_file is_index clean_path
  | Return false => NotFound
  | Raise e => Uncaught e
  end.

(** Steps 1 to 4.  The resolver is called through its cache; a hit
    gives the path a call gave before, so with the file system fixed
    while the cache lives the calls are written as calls. *)
Definition locate (full_path : string) : Located :=
  let clean_path := normalize full_path in
  secure clean_path (fun target_path_base =>
  match fs_is_dir target_path_base with
  | Return true =>
      existence_check (joinpath target_path_base "index.md") true clean_path
  | Return false =>
      secure (clean_path ++ ".md") (fun target_file =>
      existence_check target_file false clean_path)
  | Raise e => Uncaught e
  end).

End CatchAll.

End Routes.

(* ================================================================== *)
(** * Part II.  Properties                                             *)
(* ================================================================== *)

Module TemplatesFacts.
Import Templates.

Example parts_of_story : path_parts "/posts/stories/my-story/" = ["posts"; "stories"; "my-story"].
Proof. reflexivity. Qed.

Example parts_of_root : path_parts "" = [].
Proof. reflexivity. Qed.

Example story_full_directory :
  find_best_template (in_dir ["page.html"; "posts.html"; "post.html"])
    (fun s => if s =? "posts" then "post" else s) "posts/my-story" false
  = "post.html".
Proof. reflexivity. Qed.

Section Search.

Variable template_exists : string -> bool.

(** With the index flag set the loop only ever tests, and returns, the
    folder template of a non-empty prefix of the path. *)
Lemma parent_search_index_shape (singularize : string -> string)
  (parts : list string) (n : nat) :
  let r := parent_search template_exists singularize true parts n in
  r = "page.html" \/
  exists k, 1 <= k <= n /\ r = html (firstn k parts) /\ template_exists r = true.
Proof.
  induction n as [|m IH]; cbn -[firstn].
  - now left.
  - destruct (template_exists (html (firstn (S m) parts))) eqn:E.
    + right. exists (S m). repeat split; try lia. exact E.
    + destruct IH as [IH | (k & Hk & Hr & Ht)]; [now left | right].
      exists k. repeat split; try lia; assumption.
Qed.

(** With the index flag set [singularize] is never consulted. *)
Lemma parent_search_index_indep (s1 s2 : string -> string)
  (parts : list string) (n : nat) :
  parent_search template_exists s1 true parts n
  = parent_search template_exists s2 true parts n.
Proof.
  induction n as [|m IH]; cbn -[firstn]; [reflexivity|].
  now rewrite IH.
Qed.

End Search.

(** C3.  For the non-index path [posts/my-story], when the exact
    template [posts/my-story.html] is absent (as in a directory holding
    only [page.html], [posts.html], [post.html]) and the singular of
    "posts" is "post": the item template [post.html] wins when present,
    otherwise the section template [posts.html] when present, otherwise
    the fixed fallback [page.html]. *)
Theorem find_best_template_story_order
  (template_exists : string -> bool) (singularize : string -> string) :
  singularize "posts" = "post" ->
  template_exists "posts/my-story.html" = false ->
  find_best_template template_exists singularize "posts/my-story" false
  = if template_exists "post.html" then "post.html"
    else if template_exists "posts.html" then "posts.html"
    else "page.html".
Proof.
  intros Hsing Hexact.
  unfold find_best_template.
  change (path_parts "posts/my-story") with ["posts"; "my-story"].
  cbn. rewrite Hexact. cbn. rewrite Hsing. cbn.
  reflexivity.
Qed.

Lemma find_best_template_story_order_witness :
  let dir := in_dir ["page.html"; "posts.html"; "post.html"] in
  let sing := fun s => if s =? "posts" then "post" else s in
  find_best_template dir sing "posts/my-story" false
  = if dir "post.html" then "post.html"
    else if dir "posts.html" then "posts.html" else "page.html".
Proof.
  intros dir sing.
  apply (find_best_template_story_order dir sing); reflexivity.
Defined.

(** C8.  With the directory-index flag set, the result is the root
    [index.html] (empty path, template present), or the folder template
    of a non-empty prefix of the path that exists, or the [page.html]
    fallback; and it does not depend on the singularizer at all, so no
    candidate of the singular "item" check is ever returned. *)
Theorem find_best_template_index_never_singular
  (template_exists : string -> bool) (singularize : string -> string)
  (path_str : string) :
  let parts := path_parts path_str in
  let r := find_best_template template_exists singularize path_str true in
  ((r = "index.html" /\ parts = [] /\ template_exists "index.html" = true) \/
   r = "page.html" \/
   (exists k, 1 <= k <= length parts /\ r = html (firstn k parts)
              /\ template_exists r = true))
  /\ forall singularize',
       find_best_template template_exists singularize' path_str true = r.
Proof.
  intros parts r. subst r. unfold find_best_template. fold parts.
  split.
  - destruct (Nat.eqb (length parts) 0 && template_exists "index.html") eqn:E.
    + left. apply andb_true_iff in E as [El Et].
      apply Nat.eqb_eq in El. apply length_zero_iff_nil in El. auto.
    + right. cbn [negb].
      destruct (parent_search_index_shape template_exists singularize parts
                  (length parts)) as [H | H]; [now left | now right].
  - intros s'. destruct (Nat.eqb (length parts) 0 && template_exists "index.html").
    + reflexivity.
    + cbn [negb]. apply parent_search_index_indep.
Qed.

End TemplatesFacts.

(** ** Python values: induction, equality *)

Module PyFacts.
Import Py.

(** Induction on values that reaches inside the containers. *)
Section Induction.

Variable P : PyVal -> Prop.
Hypothesis HNone : P PNone.
Hypothesis HBool : forall b, P (PBool b).
Hypothesis HInt : forall z, P (PInt z).
Hypothesis HStr : forall s, P (PStr s).
Hypothesis HDatetime : forall t, P (PDatetime t).
Hypothesis HPath : forall p, P (PPath p).
Hypothesis HObject : forall i, P (PObject i).
Hypothesis HKwMark : P PKwMark.
Hypothesis HTuple : forall items, Forall P items -> P (PTuple items).
Hypothesis HList : forall items, Forall P items -> P (PList items).
Hypothesis HSet : forall items, Forall P items -> P (PSet items).
Hypothesis HDict :
  forall items, Forall (fun kv => P (snd kv)) items -> P (PDict items).

Fixpoint PyVal_deep_ind (v : PyVal) : P v :=
  let all :=
    fix all (l : list PyVal) : Forall P l :=
      match l with
      | [] => Forall_nil P
      | x :: l' => Forall_cons x (PyVal_deep_ind x) (all l')
      end in
  match v with
  | PNone => HNone
  | PBool b => HBool b
  | PInt z => HInt z
  | PStr s => HStr s
  | PDatetime t => HDatetime t
  | PPath p => HPath p
  | PObject i => HObject i
  | PKwMark => HKwMark
  | PTuple items => HTuple items (all items)
  | PList items => HList items (all items)
  | PSet items => HSet items (all items)
  | PDict items =>
      HDict items
        ((fix alld (l : Kwargs) : Forall (fun kv => P (snd kv)) l :=
            match l with
            | [] => Forall_nil _
            | kv :: l' => Forall_cons kv (PyVal_deep_ind (snd kv)) (alld l')
            end) items)
  end.

End Induction.

Lemma list_eqb_string_refl (p : list string) : list_eqb String.eqb p p = true.
Proof.
  induction p as [|s p IH]; cbn; [reflexivity|].
  now rewrite String.eqb_refl, IH.
Qed.

(** A hashable value equals itself ([nan] is not modelled). *)
Lemma py_eq_refl (v : PyVal) : hashable v = true -> py_eq v v = true.
Proof.
  induction v as [ | b | z | s | t | p | i | | items IH | items IH | items IH
                 | items IH ] using PyVal_deep_ind; cbn; intros H;
    try reflexivity; try discriminate.
  - destruct b; reflexivity.
  - apply Z.eqb_refl.
  - apply String.eqb_refl.
  - apply Z.eqb_refl.
  - apply list_eqb_string_refl.
  - apply Nat.eqb_refl.
  - induction IH as [|x l Hx Hl IHl]; [reflexivity|].
    cbn in H. apply andb_true_iff in H as [H1 H2].
    rewrite (Hx H1). cbn. exact (IHl H2).
Qed.

End PyFacts.

(** ** The TTL cache *)

Module CachetoolsFacts.
Import Py Cachetools.

Lemma find_without (k : PyVal) (ls : list Link) :
  find (has_key k) (without k ls) = None.
Proof.
  induction ls as [|a ls IH]; cbn; [reflexivity|].
  destruct (has_key k a) eqn:E; cbn; [exact IH|].
  now rewrite E.
Qed.

Lemma find_without_app (k : PyVal) (ls : list Link) (l : Link) :
  has_key k l = true ->
  find (has_key k) (without k ls ++ [l]) = Some l.
Proof.
  intros H. induction ls as [|a ls IH]; cbn.
  - now rewrite H.
  - destruct (has_key k a) eqn:E; cbn; [exact IH|].
    now rewrite E.
Qed.

(** After a store the key is found, with expiry [now + ttl]. *)
Lemma setitem_stores (now : Z) (k v : PyVal) (c : TTLCache) :
  (1 <= maxsize c)%nat -> py_eq k k = true ->
  exists c',
    setitem now k v c = (Return tt, c') /\
    find_link k c' = Some (mkLink k v (now + ttl c)) /\
    maxsize c' = maxsize c /\ ttl c' = ttl c.
Proof.
  intros Hm Hk. unfold setitem.
  destruct (Nat.ltb (maxsize c) 1) eqn:E.
  - apply Nat.ltb_lt in E. lia.
  - eexists. split; [reflexivity|]. repeat split.
    unfold find_link. cbn. apply find_without_app. exact Hk.
Qed.

(** A live key is read, and stays as it is. *)
Lemma getitem_hit (now : Z) (k : PyVal) (c : TTLCache) (l : Link) :
  find_link k c = Some l -> live now l = true ->
  exists c',
    getitem now k c = (Return (value l), c') /\
    find_link k c' = Some l /\
    maxsize c' = maxsize c /\ ttl c' = ttl c.
Proof.
  intros Hf Hl. unfold getitem. rewrite Hf, Hl.
  eexists. split; [reflexivity|]. repeat split.
  unfold find_link. cbn. apply find_without_app.
  unfold find_link in Hf. now apply find_some in Hf.
Qed.

(** A key that is absent or expired raises [KeyError]. *)
Lemma getitem_miss (now : Z) (k : PyVal) (c : TTLCache) :
  contains now k c = false ->
  exists c',
    getitem now k c = (Raise KeyError, c') /\
    maxsize c' = maxsize c /\ ttl c' = ttl c.
Proof.
  unfold contains, getitem. destruct (find_link k c) as [l|].
  - intros ->. eexists. split; [reflexivity|]. split; reflexivity.
  - intros _. exists c. repeat split.
Qed.

Lemma contains_live (now : Z) (k : PyVal) (c : TTLCache) (l : Link) :
  find_link k c = Some l -> contains now k c = live now l.
Proof. unfold contains. now intros ->. Qed.

Lemma contains_clear (now : Z) (k : PyVal) (c : TTLCache) :
  contains now k (clear c) = false.
Proof. reflexivity. Qed.

End CachetoolsFacts.

(** ** [cache.py]: the debounced clear *)

Module DebounceFacts.
Import Py Cachetools Cache CachetoolsFacts.
Open Scope Z_scope.

Definition change_key (file_path event_type : string) : PyVal :=
  hashkey [PStr file_path; PStr event_type] [].

Lemma change_key_refl (p e : string) :
  py_eq (change_key p e) (change_key p e) = true.
Proof. cbn. now rewrite !String.eqb_refl. Qed.

(** What a burst leaves behind: the key stored by its first
    notification, and one more clear than before. *)
Definition settled (p e : string) (t0 : Z) (n : nat) (st : State) : Prop :=
  find_link (change_key p e) (debounce st)
    = Some (mkLink (change_key p e) PNone (t0 + ttl (debounce st)))
  /\ clears st = n
  /\ maxsize (debounce st) = 100%nat
  /\ ttl (debounce st) = 5 * second.

(** A notification whose key is absent or expired clears once and
    stores the key. *)
Lemma notify_miss (p e : string) (t : Z) (st : State) :
  maxsize (debounce st) = 100%nat -> ttl (debounce st) = 5 * second ->
  contains t (change_key p e) (debounce st) = false ->
  settled p e t (S (clears st)) (notify (p, e, t) st).
Proof.
  intros Hm Ht Hc.
  destruct (getitem_miss _ _ _ Hc) as (d & Hg & Hdm & Hdt).
  unfold notify, clear_cache_on_file_change. fold (change_key p e).
  rewrite Hg. cbn [clear_cache debounce main clears].
  destruct (setitem_stores t (change_key p e) PNone d) as (d' & Hs & Hf & Hm' & Ht').
  - rewrite Hdm, Hm. lia.
  - apply change_key_refl.
  - rewrite Hs. unfold settled. cbn [snd debounce clears main].
    rewrite Hf, Hm', Ht', Hdm, Hdt. repeat split; assumption.
Qed.

(** A notification inside the window of a settled key clears nothing. *)
Lemma notify_hit (p e : string) (t0 t : Z) (n : nat) (st : State) :
  settled p e t0 n st -> t < t0 + 5 * second ->
  settled p e t0 n (notify (p, e, t) st).
Proof.
  intros (Hf & Hn & Hm & Ht) Hlt.
  destruct (getitem_hit t _ _ _ Hf) as (d & Hg & Hf' & Hm' & Ht').
  - unfold live. cbn [expires]. apply Z.ltb_lt. rewrite Ht. exact Hlt.
  - unfold notify, clear_cache_on_file_change. fold (change_key p e).
    rewrite Hg. unfold settled. cbn [snd debounce clears value main].
    rewrite Hf', Hm', Ht'. repeat split; assumption.
Qed.

Lemma deliver_hits (p e : string) (t0 : Z) (n : nat) (ts : list Z) :
  Forall (fun t => t < t0 + 5 * second) ts ->
  forall st, settled p e t0 n st ->
  settled p e t0 n (deliver (map (fun t => (p, e, t)) ts) st).
Proof.
  induction 1 as [|t ts Ht _ IH]; intros st Hst; [exact Hst|].
  cbn. apply IH. now apply notify_hit.
Qed.

(** C6, as the code has it.  Change notifications for the same
    (path, event type) pair: a first one at [t0] finding the pair
    absent or expired, followed by any number of others (nine, for a
    burst of ten) delivered before [t0 + 5 s], run [clear_cache]
    exactly once in all; a further one for the pair at or after
    [t0 + 5 s] runs it once more. *)
Theorem debounce_one_clear_per_window
  (file_path event_type : string) (t0 : Z) (ts : list Z) (t_after : Z)
  (st : State) :
  maxsize (debounce st) = 100%nat ->
  ttl (debounce st) = 5 * second ->
  contains t0 (change_key file_path event_type) (debounce st) = false ->
  Forall (fun t => t < t0 + 5 * second) ts ->
  t0 + 5 * second <= t_after ->
  let burst := map (fun t => (file_path, event_type, t)) (t0 :: ts) in
  let st1 := deliver burst st in
  clears st1 = S (clears st) /\
  clears (notify (file_path, event_type, t_after) st1) = S (S (clears st)).
Proof.
  intros Hm Ht Hc Hts Hafter burst st1.
  assert (Hst1 : settled file_path event_type t0 (S (clears st)) st1).
  { subst st1 burst. cbn [map deliver fold_left].
    apply (deliver_hits file_path event_type t0 _ ts Hts).
    now apply notify_miss. }
  clearbody st1. destruct Hst1 as (Hf & Hn & Hm1 & Ht1).
  split; [exact Hn|].
  assert (Hexp : contains t_after (change_key file_path event_type)
                   (debounce st1) = false).
  { rewrite (contains_live _ _ _ _ Hf). unfold live. cbn [expires].
    apply Z.ltb_ge. rewrite Ht1. exact Hafter. }
  destruct (notify_miss file_path event_type t_after st1 Hm1 Ht1 Hexp)
    as (_ & Hn' & _).
  rewrite Hn', Hn. reflexivity.
Qed.

Definition fresh : State := mkState cache debounce_cache 0.

Lemma debounce_one_clear_per_window_witness :
  let ts := map (fun i => i * 500000000) [1; 2; 3; 4; 5; 6; 7; 8; 9] in
  let burst := map (fun t => ("posts/a.md", "modified", t)) (0 :: ts) in
  clears (deliver burst fresh) = 1%nat /\
  clears (notify ("posts/a.md", "modified", 5 * second) (deliver burst fresh))
  = 2%nat.
Proof.
  intros ts burst.
  apply (debounce_one_clear_per_window "posts/a.md" "modified" 0 ts
           (5 * second) fresh).
  - reflexivity.
  - reflexivity.
  - reflexivity.
  - subst ts. repeat constructor.
  - vm_compute. discriminate.
Defined.

(** The pair, not the path alone, is what is debounced: ten
    notifications for one path inside one window, the first of type
    "created" and the others "modified", run [clear_cache] twice. *)
Lemma debounce_same_path_two_clears :
  ~ (forall (file_path : string) (events : list string) (t0 : Z) (ts : list Z)
            (st : State),
        maxsize (debounce st) = 100%nat ->
        ttl (debounce st) = 5 * second ->
        links (debounce st) = [] ->
        length events = 10%nat -> length ts = 10%nat ->
        Forall (fun t => t0 <= t < t0 + 5 * second) ts ->
        clears (deliver (map (fun et => (file_path, fst et, snd et))
                           (combine events ts)) st)
        = S (clears st)).
Proof.
  intros H.
  specialize (H "posts/a.md"
                ("created" :: repeat "modified" 9)
                0 (map Z.of_nat (seq 0 10)) fresh
                eq_refl eq_refl eq_refl eq_refl eq_refl).
  assert (F : Forall (fun t => 0 <= t < 0 + 5 * second)
                (map Z.of_nat (seq 0 10))).
  { repeat constructor; vm_compute; intuition discriminate. }
  specialize (H F). vm_compute in H. discriminate H.
Qed.

End DebounceFacts.

(** ** Sorting the items of a mapping *)

Module SortFacts.
Import Py.

Definition key_lt (x y : string * PyVal) : Prop := String.ltb (fst x) (fst y) = true.

Lemma ltb_lts (a b : string) :
  String.ltb a b = true <-> OrderedTypeEx.String_as_OT.lt a b.
Proof.
  unfold String.ltb. rewrite <- OrderedTypeEx.String_as_OT.cmp_lt.
  unfold OrderedTypeEx.String_as_OT.cmp.
  destruct (String.compare a b); split; congruence.
Qed.

Lemma ltb_trans (a b c : string) :
  String.ltb a b = true -> String.ltb b c = true -> String.ltb a c = true.
Proof.
  rewrite !ltb_lts. apply OrderedTypeEx.String_as_OT.lt_trans.
Qed.

Lemma ltb_irrefl (a : string) : String.ltb a a = false.
Proof.
  unfold String.ltb.
  pose proof (proj2 (OrderedTypeEx.String_as_OT.cmp_eq a a) eq_refl) as H.
  unfold OrderedTypeEx.String_as_OT.cmp in H. now rewrite H.
Qed.

Lemma ltb_connected (a b : string) :
  String.ltb a b = false -> a <> b -> String.ltb b a = true.
Proof.
  unfold String.ltb. intros H Hne.
  rewrite String.compare_antisym.
  destruct (String.compare a b) eqn:E; try discriminate; [|reflexivity].
  apply String.compare_eq_iff in E. contradiction.
Qed.

Lemma insert_item_perm (x : string * PyVal) (l : Kwargs) :
  Permutation (x :: l) (insert_item x l).
Proof.
  induction l as [|y l IH]; cbn; [reflexivity|].
  destruct (String.ltb (fst y) (fst x)); [|reflexivity].
  rewrite perm_swap. now constructor.
Qed.

Lemma sorted_items_perm (l : Kwargs) : Permutation l (sorted_items l).
Proof.
  induction l as [|x l IH]; cbn; [constructor|].
  rewrite <- insert_item_perm. now constructor.
Qed.

Lemma insert_item_sorted (x : string * PyVal) (l : Kwargs) :
  ~ In (fst x) (map fst l) ->
  StronglySorted key_lt l -> StronglySorted key_lt (insert_item x l).
Proof.
  intros Hnin Hs. induction Hs as [|y l Hs IH Hy]; cbn.
  - repeat constructor.
  - cbn in Hnin.
    destruct (String.ltb (fst y) (fst x)) eqn:E.
    + constructor.
      * apply IH. tauto.
      * rewrite <- insert_item_perm. constructor; assumption.
    + assert (Hxy : key_lt x y).
      { apply ltb_connected; [exact E | tauto]. }
      constructor; [now constructor|].
      constructor; [exact Hxy|].
      eapply Forall_impl; [|exact Hy].
      intros z Hz. unfold key_lt in *. eapply ltb_trans; eassumption.
Qed.

Lemma sorted_items_sorted (l : Kwargs) :
  NoDup (map fst l) -> StronglySorted key_lt (sorted_items l).
Proof.
  induction l as [|x l IH]; cbn; intros Hnd; [constructor|].
  inversion Hnd as [|? ? Hnin Hnd']; subst.
  apply insert_item_sorted; [|now apply IH].
  intros Hin. apply Hnin.
  eapply Permutation_in; [|exact Hin].
  apply Permutation_map. symmetry. apply sorted_items_perm.
Qed.

(** Two lists sorted strictly by key with the same elements are the
    same list. *)
Lemma sorted_unique (l1 : Kwargs) :
  forall l2, StronglySorted key_lt l1 -> StronglySorted key_lt l2 ->
  Permutation l1 l2 -> l1 = l2.
Proof.
  induction l1 as [|a l1 IH]; intros l2 H1 H2 Hp.
  - now apply Permutation_nil in Hp.
  - destruct l2 as [|b l2].
    { symmetry in Hp. now apply Permutation_nil in Hp. }
    apply StronglySorted_inv in H1 as [H1 Ha].
    apply StronglySorted_inv in H2 as [H2 Hb].
    assert (Hab : a = b).
    { assert (Ia : In a (b :: l2)) by (eapply Permutation_in; [exact Hp|now left]).
      assert (Ib : In b (a :: l1)).
      { eapply Permutation_in; [symmetry; exact Hp|now left]. }
      destruct Ia as [Ia|Ia]; [now symmetry|].
      destruct Ib as [Ib|Ib]; [assumption|].
      rewrite Forall_forall in Ha, Hb.
      pose proof (Ha _ Ib) as Hlt1. pose proof (Hb _ Ia) as Hlt2.
      unfold key_lt in *.
      pose proof (ltb_trans _ _ _ Hlt1 Hlt2) as Hc.
      rewrite ltb_irrefl in Hc. discriminate. }
    subst b. f_equal. apply IH; try assumption.
    eapply Permutation_cons_inv; exact Hp.
Qed.

(** The order in which a mapping holds its entries does not show in
    the sorted items. *)
Lemma sorted_items_order_free (l1 l2 : Kwargs) :
  NoDup (map fst l1) -> Permutation l1 l2 ->
  sorted_items l1 = sorted_items l2.
Proof.
  intros Hnd Hp. apply sorted_unique.
  - now apply sorted_items_sorted.
  - apply sorted_items_sorted.
    eapply Permutation_NoDup; [|exact Hnd]. now apply Permutation_map.
  - rewrite <- !sorted_items_perm. exact Hp.
Qed.

End SortFacts.

(** ** [cache.py]: the key normalizer *)

Module HashableFacts.
Import Py Cachetools Cache PyFacts SortFacts.

Lemma make_hashable_dict (items : Kwargs) :
  make_hashable (PDict items)
  = PTuple (map item_tuple (sorted_items (make_hashable_items items))).
Proof.
  cbn. do 3 f_equal.
  induction items as [|[k v] items IH]; cbn; [reflexivity|].
  now rewrite IH.
Qed.

Lemma make_hashable_items_keys (items : Kwargs) :
  map fst (make_hashable_items items) = map fst items.
Proof.
  unfold make_hashable_items. rewrite map_map. reflexivity.
Qed.

Lemma hashable_item_tuples (l : Kwargs) :
  forallb hashable (map item_tuple l) = true <->
  Forall (fun kv => hashable (snd kv) = true) l.
Proof.
  induction l as [|kv l IH]; cbn.
  - split; [constructor | reflexivity].
  - rewrite andb_true_r, andb_true_iff, IH. split.
    + intros [H1 H2]. now constructor.
    + intros H. inversion H; subst. now split.
Qed.

Lemma item_tuple_inj (l1 l2 : Kwargs) :
  map item_tuple l1 = map item_tuple l2 -> l1 = l2.
Proof.
  revert l2. induction l1 as [|[k v] l1 IH]; intros [|[k' v'] l2] H;
    try discriminate; [reflexivity|].
  cbn in H. injection H as -> -> H. f_equal. now apply IH.
Qed.

(** Between hashable values structural equality is plain equality: a
    hashable tuple holds no list, set or mapping. *)
Lemma struct_eq_hashable (a : PyVal) :
  forall b, struct_eq a b -> hashable a = true -> a = b.
Proof.
  induction a as [ | | | | | | | | items IH | items IH | items IH | items IH ]
    using PyVal_deep_ind; intros w H Hh; inversion H; subst;
    try reflexivity; try discriminate.
  f_equal. cbn in Hh.
  match goal with F : Forall2 struct_eq _ _ |- _ =>
    clear H; induction F as [|x y xs ys Hxy _ IHF] end; [reflexivity|].
  inversion IH; subst. cbn in Hh. apply andb_true_iff in Hh as [Hhx Hhxs].
  f_equal; [now auto | now apply IHF].
Qed.

(** Structurally equal values have the same normal form, provided the
    normal form of the first is hashable. *)
Lemma make_hashable_struct_eq (a : PyVal) :
  forall b, struct_eq a b -> hashable (make_hashable a) = true ->
  make_hashable a = make_hashable b.
Proof.
  induction a as [ | | | | | | | | items IH | items IH | items IH | items IH ]
    using PyVal_deep_ind; intros w H Hh; inversion H; subst;
    try reflexivity.
  - (* tuples are not normalized *)
    now rewrite (struct_eq_hashable _ _ H Hh).
  - (* lists *)
    cbn in *. f_equal.
    match goal with F : Forall2 struct_eq _ _ |- _ =>
      clear H; induction F as [|x y xs ys Hxy _ IHF] end; [reflexivity|].
    inversion IH; subst. cbn in Hh. apply andb_true_iff in Hh as [Hhx Hhxs].
    cbn. f_equal; [now auto|]. now apply IHF.
  - (* mappings *)
    rename items into xs.
    match goal with
    | Hnd : NoDup _, Hp : Permutation _ _, F : Forall2 _ _ _ |- _ =>
        rename Hnd into Hnodup; rename Hp into Hperm; rename F into Hall
    end.
    rewrite make_hashable_dict in Hh. cbn in Hh.
    apply hashable_item_tuples in Hh.
    rewrite <- sorted_items_perm in Hh.
    unfold make_hashable_items in Hh. rewrite Forall_map in Hh. cbn in Hh.
    rewrite Hperm in IH, Hh.
    assert (E : make_hashable_items xs' = make_hashable_items ys).
    { clear Hperm Hnodup H. induction Hall as [|x y l l' [Hk Hv] _ IHF];
        [reflexivity|].
      inversion IH; subst. inversion Hh; subst. cbn.
      f_equal; [|now apply IHF].
      rewrite Hk. f_equal. auto. }
    rewrite !make_hashable_dict. do 2 f_equal. rewrite <- E.
    apply sorted_items_order_free.
    + now rewrite make_hashable_items_keys.
    + now apply Permutation_map.
Qed.

Lemma sorted_items_nil (l : Kwargs) : sorted_items l = [] -> l = [].
Proof.
  intros H. apply Permutation_nil. rewrite <- H. symmetry.
  apply sorted_items_perm.
Qed.

Definition kw_part (kwargs : Kwargs) : list PyVal :=
  match kwargs with
  | [] => []
  | _ => PKwMark :: flat_map (fun kv => [PStr (fst kv); snd kv])
                      (sorted_items kwargs)
  end.

Lemma kw_part_sorted (l1 l2 : Kwargs) :
  sorted_items l1 = sorted_items l2 -> kw_part l1 = kw_part l2.
Proof.
  intros E. destruct l1 as [|x l1], l2 as [|y l2]; try reflexivity.
  - symmetry in E. apply sorted_items_nil in E. discriminate.
  - apply sorted_items_nil in E. discriminate.
  - unfold kw_part. now rewrite E.
Qed.

Lemma kw_part_hashable (l : Kwargs) :
  forallb hashable (kw_part l) = true ->
  Forall (fun kv => hashable (snd kv) = true) (sorted_items l).
Proof.
  destruct l as [|x l]; [constructor|].
  unfold kw_part. cbn [forallb hashable andb].
  generalize (sorted_items (x :: l)). intros s.
  induction s as [|kv s IH]; cbn; [constructor|].
  intros H. apply andb_true_iff in H as [H1 H2]. now constructor; auto.
Qed.

(** Structurally equal calls look up the same key. *)
Lemma cache_key_struct_eq (args1 args2 : Args) (kwargs1 kwargs2 : Kwargs) :
  Forall2 struct_eq args1 args2 ->
  struct_eq (PDict kwargs1) (PDict kwargs2) ->
  hashable (cache_key args1 kwargs1) = true ->
  cache_key args1 kwargs1 = cache_key args2 kwargs2.
Proof.
  intros Ha Hk Hh. unfold cache_key, hashkey in *.
  fold (kw_part (make_hashable_items kwargs1)) in *.
  fold (kw_part (make_hashable_items kwargs2)).
  cbn in Hh. rewrite forallb_app in Hh. apply andb_true_iff in Hh as [H1 H2].
  f_equal. f_equal.
  - clear H2 Hk. induction Ha as [|x y xs ys Hxy _ IH]; [reflexivity|].
    cbn in *. apply andb_true_iff in H1 as [Hx Hxs].
    f_equal; [now apply make_hashable_struct_eq | now apply IH].
  - apply kw_part_sorted. apply item_tuple_inj.
    assert (E : make_hashable (PDict kwargs1) = make_hashable (PDict kwargs2)).
    { apply make_hashable_struct_eq; [exact Hk|].
      rewrite make_hashable_dict. cbn. apply hashable_item_tuples.
      now apply kw_part_hashable. }
    rewrite !make_hashable_dict in E. now injection E.
Qed.

Example key_of_reordered_mapping :
  cache_key [PDict [("a", PInt 1); ("b", PInt 2)]] []
  = cache_key [PDict [("b", PInt 2); ("a", PInt 1)]] [].
Proof. reflexivity. Qed.

Example key_of_reordered_keywords :
  cache_key [PStr "x"] [("relative_to_path", PPath ["srv"]); ("flag", PBool true)]
  = cache_key [PStr "x"] [("flag", PBool true); ("relative_to_path", PPath ["srv"])].
Proof. reflexivity. Qed.

(** Two equal sets that iterate in different orders get different keys. *)
Example key_of_reordered_set :
  py_eq (PSet [PInt 0; PInt 8]) (PSet [PInt 8; PInt 0]) = true /\
  cache_key [PSet [PInt 0; PInt 8]] [] <> cache_key [PSet [PInt 8; PInt 0]] [].
Proof. split; [reflexivity | discriminate]. Qed.

End HashableFacts.

(** ** [cache.py]: the memoizing wrapper *)

Module CacheFnFacts.
Import Py Cachetools Cache PyFacts CachetoolsFacts HashableFacts.
Open Scope Z_scope.

(** A miss: the function is called with the arguments as given, and a
    result it returns is stored under the key. *)
Lemma wrapper_miss (func : Func) (args : Args) (kwargs : Kwargs)
  (now later : Z) (c c' : TTLCache) (r : PyVal) :
  hashable (cache_key args kwargs) = true ->
  contains now (cache_key args kwargs) c = false ->
  func args kwargs c = (Return r, c') ->
  (1 <= maxsize c')%nat ->
  exists c1,
    wrapper func args kwargs now later c = (Return r, c1, [(args, kwargs)]) /\
    find_link (cache_key args kwargs) c1
    = Some (mkLink (cache_key args kwargs) r (later + ttl c')).
Proof.
  intros Hh Hc Hf Hm. unfold wrapper. rewrite Hh, Hc, Hf. cbn [negb].
  destruct (setitem_stores later (cache_key args kwargs) r c' Hm
              (py_eq_refl _ Hh)) as (c1 & Hs & Hfind & _).
  rewrite Hs. exists c1. split; [reflexivity | exact Hfind].
Qed.

(** A hit: the stored value is returned and the function is not called. *)
Lemma wrapper_hit (func : Func) (args : Args) (kwargs : Kwargs)
  (now later : Z) (c : TTLCache) (l : Link) :
  hashable (cache_key args kwargs) = true ->
  find_link (cache_key args kwargs) c = Some l ->
  live now l = true ->
  exists c1, wrapper func args kwargs now later c = (Return (value l), c1, []).
Proof.
  intros Hh Hf Hl. unfold wrapper. rewrite Hh. cbn [negb].
  rewrite (contains_live _ _ _ _ Hf), Hl.
  destruct (getitem_hit now _ _ _ Hf Hl) as (c1 & Hg & _).
  rewrite Hg. now exists c1.
Qed.

(** On an emptied cache the function is called, whatever it does. *)
Lemma wrapper_after_clear (func : Func) (args : Args) (kwargs : Kwargs)
  (now later : Z) (c : TTLCache) :
  hashable (cache_key args kwargs) = true ->
  snd (wrapper func args kwargs now later (clear c)) = [(args, kwargs)].
Proof.
  intros Hh. unfold wrapper. rewrite Hh, contains_clear. cbn [negb].
  destruct (func args kwargs (clear c)) as [[r|e] c1]; [|reflexivity].
  destruct (setitem later (cache_key args kwargs) r c1) as [[u|e] c2];
    reflexivity.
Qed.

(** Where the second call does hit.  Two calls whose arguments are
    related by [struct_eq] (mappings may list their entries in any
    order) and whose cache key is hashable: when the first call misses
    and the function returns, the first call passes the function its
    original arguments and stores the result; the second call, made
    before the entry expires, returns the same result without calling
    the function; and on the cleared cache the next call calls the
    function again, with the arguments as given. *)
Theorem cache_fn_hit_on_equal_arguments
  (func : Func) (args1 args2 : Args) (kwargs1 kwargs2 : Kwargs)
  (c0 c0' : TTLCache) (r : PyVal) (t1 t1' t2 t2' : Z) :
  Forall2 struct_eq args1 args2 ->
  struct_eq (PDict kwargs1) (PDict kwargs2) ->
  hashable (cache_key args1 kwargs1) = true ->
  contains t1 (cache_key args1 kwargs1) c0 = false ->
  func args1 kwargs1 c0 = (Return r, c0') ->
  (1 <= maxsize c0')%nat ->
  t2 < t1' + ttl c0' ->
  exists c1 c2,
    wrapper func args1 kwargs1 t1 t1' c0 = (Return r, c1, [(args1, kwargs1)]) /\
    wrapper func args2 kwargs2 t2 t2' c1 = (Return r, c2, []) /\
    forall t3 t3',
      snd (wrapper func args2 kwargs2 t3 t3' (clear c2)) = [(args2, kwargs2)].
Proof.
  intros Ha Hk Hh Hc Hf Hm Ht.
  pose proof (cache_key_struct_eq _ _ _ _ Ha Hk Hh) as E.
  destruct (wrapper_miss func args1 kwargs1 t1 t1' c0 c0' r Hh Hc Hf Hm)
    as (c1 & Hw1 & Hfind).
  assert (Hh2 : hashable (cache_key args2 kwargs2) = true) by now rewrite <- E.
  rewrite E in Hfind.
  destruct (wrapper_hit func args2 kwargs2 t2 t2' c1 _ Hh2 Hfind) as (c2 & Hw2).
  { unfold live. cbn [expires]. now apply Z.ltb_lt. }
  exists c1, c2. split; [exact Hw1|]. split; [exact Hw2|].
  intros t3 t3'. now apply wrapper_after_clear.
Qed.

(** A function that returns the number of its positional arguments. *)
Definition count_args : Func := fun args _ c => (Return (PInt (Z.of_nat (length args))), c).

Lemma cache_fn_hit_on_equal_arguments_witness :
  let d1 := PDict [("a", PInt 1); ("b", PInt 2)] in
  let d2 := PDict [("b", PInt 2); ("a", PInt 1)] in
  exists c1 c2,
    wrapper count_args [d1] [] 0 1 cache = (Return (PInt 1), c1, [([d1], [])]) /\
    wrapper count_args [d2] [] 2 3 c1 = (Return (PInt 1), c2, []) /\
    forall t3 t3',
      snd (wrapper count_args [d2] [] t3 t3' (clear c2)) = [([d2], [])].
Proof.
  intros d1 d2.
  apply (cache_fn_hit_on_equal_arguments count_args [d1] [d2] [] [] cache cache
           (PInt 1) 0 1 2 3).
  - constructor; [|constructor].
    apply (se_dict _ [("b", PInt 2); ("a", PInt 1)]).
    + repeat constructor; cbn; intuition discriminate.
    + apply perm_swap.
    + repeat constructor.
  - apply se_same.
  - reflexivity.
  - reflexivity.
  - reflexivity.
  - cbn. lia.
  - reflexivity.
Defined.

(** Without the hashable key the statement fails: for a tuple holding
    a list the wrapper raises on every call and returns no result. *)
Lemma cache_fn_hit_fails_on_nested_tuple :
  ~ (forall (func : Func) (args1 args2 : Args) (c0 c0' : TTLCache) (r : PyVal)
            (t1 t1' t2 t2' : Z),
        Forall2 struct_eq args1 args2 ->
        contains t1 (cache_key args1 []) c0 = false ->
        func args1 [] c0 = (Return r, c0') ->
        (1 <= maxsize c0')%nat ->
        t2 < t1' + ttl c0' ->
        exists c1 c2,
          wrapper func args1 [] t1 t1' c0 = (Return r, c1, [(args1, [])]) /\
          wrapper func args2 [] t2 t2' c1 = (Return r, c2, [])).
Proof.
  intros H.
  destruct (H count_args [PTuple [PList []]] [PTuple [PList []]] cache cache
              (PInt 1) 0 1 2 3) as (c1 & c2 & Hw & _).
  - constructor; [apply se_same | constructor].
  - reflexivity.
  - reflexivity.
  - cbn. lia.
  - reflexivity.
  - discriminate Hw.
Qed.

(** C2.  Equal arguments for which the second call does not hit.  The
    sets [{0, 8}] and [{8, 0}] are equal and iterate as written; the
    normalizer keeps the iteration order, where it sorts the items of
    a mapping, so the two calls get different keys, both hashable, and
    the second call calls the function again.  And for a tuple holding
    a list, which the normalizer returns as it is, no key can be built:
    the call raises, the function is not called and nothing is
    stored, so a second call with the same argument raises again. *)
Theorem cache_fn_misses_on_equal_arguments :
  let s1 := PSet [PInt 0; PInt 8] in
  let s2 := PSet [PInt 8; PInt 0] in
  let t := PTuple [PList [PInt 1]] in
  py_eq s1 s2 = true /\
  hashable (cache_key [s1] []) = true /\
  hashable (cache_key [s2] []) = true /\
  (exists c1 c2,
     wrapper count_args [s1] [] 0 1 cache
     = (Return (PInt 1), c1, [([s1], [])]) /\
     wrapper count_args [s2] [] 2 3 c1
     = (Return (PInt 1), c2, [([s2], [])])) /\
  py_eq t t = true /\
  wrapper count_args [t] [] 0 1 cache
  = (Raise (TypeError "unhashable type"), cache, []) /\
  wrapper count_args [t] [] 2 3 cache
  = (Raise (TypeError "unhashable type"), cache, []).
Proof.
  cbv zeta. repeat split; try reflexivity.
  eexists. eexists. split; reflexivity.
Qed.

(** C10.  [make_hashable] returns a tuple as it is, without looking at
    its elements, and so does it any value that is not a mapping, a
    list or a set; a call whose argument is a tuple holding a list or
    a mapping therefore raises the unhashable-type error when the key
    is looked up, the function is not called and nothing is returned. *)
Theorem make_hashable_leaves_tuples
  (func : Func) (inner : list PyVal) (entries : Kwargs)
  (now later : Z) (c : TTLCache) :
  (forall items, make_hashable (PTuple items) = PTuple items) /\
  make_hashable PNone = PNone /\
  (forall b, make_hashable (PBool b) = PBool b) /\
  (forall z, make_hashable (PInt z) = PInt z) /\
  (forall s, make_hashable (PStr s) = PStr s) /\
  (forall t, make_hashable (PDatetime t) = PDatetime t) /\
  (forall p, make_hashable (PPath p) = PPath p) /\
  (forall i, make_hashable (PObject i) = PObject i) /\
  wrapper func [PTuple [PList inner]] [] now later c
  = (Raise (TypeError "unhashable type"), c, []) /\
  wrapper func [PTuple [PDict entries]] [] now later c
  = (Raise (TypeError "unhashable type"), c, []).
Proof. repeat split. Qed.

End CacheFnFacts.

(** ** The secure path resolver *)

Module SecurePathFacts.
Import PyPath SecurePath.

Lemma relative_to_prefix (other p rest : Path) :
  relative_to p other = Some rest <-> p = other ++ rest.
Proof.
  revert p. induction other as [|o other IH]; intros p; cbn.
  - split; [intros H; now injection H | now intros ->].
  - destruct p as [|x p]; [split; discriminate|].
    destruct (String.eqb_spec x o) as [->|Hne].
    + rewrite IH. split; [now intros -> | intros H; now injection H].
    + split; [discriminate | intros H; injection H as Hx _; contradiction].
Qed.

(** [is_relative_to] holds of the root and of what lies below it. *)
Lemma is_relative_to_inside (p other : Path) :
  is_relative_to p other = true <-> exists rest, p = other ++ rest.
Proof.
  unfold is_relative_to. destruct (relative_to p other) as [rest|] eqn:E.
  - apply relative_to_prefix in E. split; [now exists rest | reflexivity].
  - split; [discriminate|]. intros [rest Hp].
    apply relative_to_prefix in Hp. congruence.
Qed.

(** C1.  The resolver raises exactly when the input holds a null byte,
    or resolving the joined path fails, or the resolved path is neither
    the root nor below it; it returns [p] exactly when none of these
    holds and [p] is the resolved path, which then lies inside the
    root. *)
Theorem get_secure_target_outcome
  (resolve : Path -> option Path) (user_path : string) (root : Path) :
  let naive := joinpath root (PyStr.strip "/"%char user_path) in
  let result := get_secure_target resolve user_path root in
  (raises result <->
     PyStr.contains_char zero user_path = true \/
     resolve naive = None \/
     exists p, resolve naive = Some p /\ is_relative_to p root = false)
  /\
  (forall p, result = Return p <->
     PyStr.contains_char zero user_path = false /\
     resolve naive = Some p /\
     exists rest, p = root ++ rest).
Proof.
  intros naive result. subst result. unfold get_secure_target. fold naive.
  destruct (PyStr.contains_char zero user_path) eqn:Hnull.
  { split.
    - split; [auto | intros _; eexists; reflexivity].
    - intros p. split; [discriminate | intros (H & _); discriminate]. }
  destruct (resolve naive) as [q|] eqn:Hres.
  2:{ split.
      - split; [auto | intros _; eexists; reflexivity].
      - intros p. split; [discriminate | intros (_ & H & _); discriminate]. }
  destruct (is_relative_to q root) eqn:Hin; cbn [negb].
  - split.
    + split.
      * intros [e He]. discriminate.
      * intros [H | [H | (p & Hp & Hrel)]]; try discriminate.
        injection Hp as <-. congruence.
    + intros p. split.
      * intros H. injection H as <-. repeat split.
        now apply is_relative_to_inside.
      * intros (_ & H & _). congruence.
  - split.
    + split; [|intros _; eexists; reflexivity].
      intros _. right. right. now exists q.
    + intros p. split; [discriminate|].
      intros (_ & H & Hrest). injection H as <-.
      apply is_relative_to_inside in Hrest. congruence.
Qed.

(** A file system without symlinks: [resolve] only folds ".." away. *)
Definition fold_dotdot (p : Path) : option Path :=
  Some (rev (fold_left (fun acc x => if x =? ".." then tl acc else x :: acc) p [])).

Example resolves_inside :
  get_secure_target fold_dotdot "/posts/../about/" ["srv"; "content"]
  = Return ["srv"; "content"; "about"].
Proof. reflexivity. Qed.

Example rejects_traversal :
  get_secure_target fold_dotdot "../../etc/passwd" ["srv"; "content"]
  = Raise (ValueError "Path Traversal Attempt: ../../etc/passwd").
Proof. reflexivity. Qed.

Example rejects_null_byte :
  get_secure_target fold_dotdot (String zero "a") ["srv"; "content"]
  = Raise (ValueError "Security Alert: Null byte detected in path.").
Proof. reflexivity. Qed.

End SecurePathFacts.

(** ** The markdown loader *)

Module LoaderFacts.
Import Py PyPath Loader.

Lemma dict_get_set_same (k : string) (v : PyVal) (d : Kwargs) :
  dict_get k (dict_set k v d) = Some v.
Proof.
  induction d as [|[k' v'] d IH]; cbn.
  - now rewrite String.eqb_refl.
  - destruct (k' =? k) eqn:E; cbn.
    + now rewrite String.eqb_refl.
    + now rewrite E.
Qed.

Lemma dict_get_set_other (k k' : string) (v : PyVal) (d : Kwargs) :
  k <> k' -> dict_get k' (dict_set k v d) = dict_get k' d.
Proof.
  intros Hne. induction d as [|[k0 v0] d IH]; cbn.
  - destruct (String.eqb_spec k k'); [contradiction | reflexivity].
  - destruct (String.eqb_spec k0 k) as [->|Hk]; cbn.
    + destruct (String.eqb_spec k k'); [contradiction | reflexivity].
    + destruct (k0 =? k'); [reflexivity | exact IH].
Qed.

(** C5.  When the front-matter parser, [stat] and the markdown
    converter return, the loader returns a document whose metadata
    holds, whatever the author wrote under these keys, the slug of the
    file's stem under [slug] and, under [date], exactly the two
    timestamps of the file: [updated] from [st_mtime] and [created]
    from [st_ctime]. *)
Theorem parse_markdown_file_injects_metadata
  (frontmatter_load : Path -> outcome (Kwargs * string))
  (stat : Path -> outcome (Z * Z))
  (slugify : string -> string)
  (parse_markdown : string -> outcome string)
  (file : Path) (authored : Kwargs) (body rendered : string) (mtime ctime : Z) :
  frontmatter_load file = Return (authored, body) ->
  stat file = Return (mtime, ctime) ->
  parse_markdown body = Return rendered ->
  exists post,
    parse_markdown_file frontmatter_load stat slugify parse_markdown file
    = Return post /\
    dict_get "slug" (metadata post) = Some (PStr (slugify (stem file))) /\
    dict_get "date" (metadata post)
    = Some (PDict [("updated", PDatetime mtime); ("created", PDatetime ctime)]) /\
    forall k, k <> "slug" -> k <> "date" ->
      dict_get k (metadata post) = dict_get k authored.
Proof.
  intros Hload Hstat Hmd. unfold parse_markdown_file.
  rewrite Hload. cbn [bind]. rewrite Hstat. cbn [bind fst snd].
  rewrite Hmd. cbn [bind]. eexists. split; [reflexivity|].
  cbn [metadata]. split; [apply dict_get_set_same|]. split.
  - rewrite dict_get_set_other by discriminate. apply dict_get_set_same.
  - intros k Hs Hd. rewrite !dict_get_set_other; auto.
Qed.

Lemma parse_markdown_file_injects_metadata_witness :
  let load := fun _ : Path =>
    Return ([("title", PStr "Hello"); ("slug", PStr "mine");
             ("date", PStr "2020-01-01")], "# Hello") in
  let stat := fun _ : Path => Return (200, 100)%Z in
  let md := fun s : string => Return (String.append "<h1>" (String.append s "</h1>")) in
  exists post,
    parse_markdown_file load stat (fun s => s) md ["srv"; "content"; "hello.md"]
    = Return post /\
    dict_get "slug" (metadata post) = Some (PStr "hello") /\
    dict_get "date" (metadata post)
    = Some (PDict [("updated", PDatetime 200); ("created", PDatetime 100)]) /\
    forall k, k <> "slug" -> k <> "date" ->
      dict_get k (metadata post)
      = dict_get k [("title", PStr "Hello"); ("slug", PStr "mine");
                    ("date", PStr "2020-01-01")].
Proof.
  intros load stat md.
  apply (parse_markdown_file_injects_metadata load stat (fun s => s) md
           ["srv"; "content"; "hello.md"] _ "# Hello" "<h1># Hello</h1>" 200 100);
    reflexivity.
Defined.

End LoaderFacts.

(** ** The sandboxed renderer *)

Module RendererFacts.
Import Py Cachetools Cache Renderer CacheFnFacts.
Open Scope Z_scope.

(** The function under the decorator never raises: every exception of
    the evaluation is caught. *)
Lemma template_render_content_body_returns
  (Template : Type)
  (from_string : Environment -> string -> outcome Template)
  (render : Template -> Kwargs -> outcome string)
  (templates safe_env : Environment) (content : string) (data : Kwargs)
  (safe : bool) :
  exists r,
    fst (template_render_content_body Template from_string render templates
           content data safe safe_env) = Return r.
Proof.
  unfold template_render_content_body. destruct (content =? "")%string.
  - now eexists.
  - cbn [fst]. destruct (evaluate _ _ _ _ _ _ _); now eexists.
Qed.

(** The key of a call is hashable when the normal form of [data] is. *)
Lemma render_key_hashable (templates_id : nat) (content : string)
  (data : Kwargs) (safe : bool) :
  hashable (cache_key [PObject templates_id; PStr content; PDict data;
                       PBool safe] [])
  = hashable (make_hashable (PDict data)).
Proof.
  unfold cache_key, hashkey.
  cbn [map make_hashable_items app hashable forallb].
  change (make_hashable (PObject templates_id)) with (PObject templates_id).
  change (make_hashable (PStr content)) with (PStr content).
  change (make_hashable (PBool safe)) with (PBool safe).
  cbn [hashable andb]. now rewrite andb_true_r.
Qed.

Section Decorated.

Variable Template : Type.
Variable from_string : Environment -> string -> outcome Template.
Variable render : Template -> Kwargs -> outcome string.
Variable markup : string -> PyVal.

(** A call that misses: the body runs, and what it returns is what
    the call returns. *)
Lemma template_render_content_miss
  (templates_id : nat) (templates safe_env : Environment) (content : string)
  (data : Kwargs) (safe : bool) (now later : Z) (c : TTLCache) (r : Rendered) :
  hashable (make_hashable (PDict data)) = true ->
  contains now (cache_key [PObject templates_id; PStr content; PDict data;
                           PBool safe] []) c = false ->
  (1 <= maxsize c)%nat ->
  fst (template_render_content_body Template from_string render templates
         content data safe safe_env) = Return r ->
  exists c1,
    template_render_content Template from_string render markup templates_id
      templates content data safe now later c safe_env
    = (returned markup (Return r), c1,
       snd (template_render_content_body Template from_string render templates
              content data safe safe_env)).
Proof.
  intros Hh Hc Hm Hb. unfold template_render_content.
  rewrite <- (render_key_hashable templates_id content data safe) in Hh.
  set (func := fun (_ : Args) (_ : Kwargs) (c0 : TTLCache) =>
                 (returned markup
                    (fst (template_render_content_body Template from_string
                            render templates content data safe safe_env)), c0)).
  assert (Hf : exists v, func [PObject templates_id; PStr content; PDict data;
                               PBool safe] [] c = (Return v, c)
                         /\ returned markup (Return r) = Return v).
  { unfold func. rewrite Hb. destruct r; eexists; split; reflexivity. }
  destruct Hf as (v & Hf & Hv).
  destruct (wrapper_miss func _ _ now later c c v Hh Hc Hf Hm) as (c1 & Hw & _).
  rewrite Hw, Hv. now exists c1.
Qed.

(** C4, for data from which a key can be built, on a call that the
    cache does not answer.  Empty content is answered with the empty
    string at once, the sandbox untouched; and when the evaluation of
    content raises, the call returns that content as it was given. *)
Theorem template_render_content_fail_open
  (templates_id : nat) (templates safe_env : Environment) (content : string)
  (data : Kwargs) (safe : bool) (e : exn) (now later : Z) (c : TTLCache) :
  hashable (make_hashable (PDict data)) = true ->
  contains now (cache_key [PObject templates_id; PStr ""; PDict data;
                           PBool safe] []) c = false ->
  contains now (cache_key [PObject templates_id; PStr content; PDict data;
                           PBool safe] []) c = false ->
  (1 <= maxsize c)%nat ->
  evaluate Template from_string render
    (ensure_sandbox_filters templates safe_env) content data safe = Raise e ->
  (exists c1,
     template_render_content Template from_string render markup templates_id
       templates "" data safe now later c safe_env
     = (Return (PStr ""), c1, safe_env))
  /\
  fst (fst (template_render_content Template from_string render markup
              templates_id templates content data safe now later c safe_env))
  = Return (PStr content).
Proof.
  intros Hh Hc0 Hc Hm He. split.
  - destruct (template_render_content_miss templates_id templates safe_env ""
                data safe now later c (Plain "") Hh Hc0 Hm eq_refl)
      as (c1 & H).
    exists c1. exact H.
  - assert (Hb : fst (template_render_content_body Template from_string render
                        templates content data safe safe_env)
                 = Return (Plain content)).
    { unfold template_render_content_body.
      destruct (content =? "")%string eqn:E.
      - apply String.eqb_eq in E. now subst.
      - cbn [fst]. now rewrite He. }
    destruct (template_render_content_miss templates_id templates safe_env
                content data safe now later c (Plain content) Hh Hc Hm Hb)
      as (c1 & H).
    now rewrite H.
Qed.

End Decorated.

(** A toy template engine: a template is its source, and an opening
    ["{{"] that is never closed is a syntax error. *)
Definition toy_from_string (_ : Environment) (s : string) : outcome string :=
  if String.prefix "{{" s && negb (PyStr.contains_char "}"%char s)
  then Raise (OtherError "unexpected end of template") else Return s.

Definition toy_render (t : string) (_ : Kwargs) : outcome string := Return t.

(** A [Markup] object, told from a plain string by a tag. *)
Definition toy_markup (s : string) : PyVal := PTuple [PStr "Markup"; PStr s].

Lemma template_render_content_fail_open_witness :
  let empty := mkEnv [] [] in
  let data := [("site_code", PDict []); ("title", PStr "Hello")] in
  (exists c1,
     template_render_content string toy_from_string toy_render toy_markup 1
       empty "" data false 0 1 cache empty
     = (Return (PStr ""), c1, empty))
  /\
  fst (fst (template_render_content string toy_from_string toy_render
              toy_markup 1 empty "{{ title" data false 0 1 cache empty))
  = Return (PStr "{{ title").
Proof.
  intros empty data.
  apply (template_render_content_fail_open string toy_from_string toy_render
           toy_markup 1 empty empty "{{ title" data false
           (OtherError "unexpected end of template") 0 1 cache).
  - reflexivity.
  - reflexivity.
  - reflexivity.
  - cbn. lia.
  - reflexivity.
Defined.

(** As stated for every input the claim fails: with data that holds a
    tuple holding a list no key can be built, and the call raises
    before the body runs, also for empty content. *)
Lemma template_render_content_unhashable_data :
  let empty := mkEnv [] [] in
  let data := [("site_code", PDict [("nav", PTuple [PList [PStr "home"]])])] in
  template_render_content string toy_from_string toy_render toy_markup 1
    empty "" data false 0 1 cache empty
  = (Raise (TypeError "unhashable type"), cache, empty)
  /\
  template_render_content string toy_from_string toy_render toy_markup 1
    empty "{{ title" data false 0 1 cache empty
  = (Raise (TypeError "unhashable type"), cache, empty).
Proof. split; reflexivity. Qed.

End RendererFacts.

(** ** Directory navigation *)

Module NavigationFacts.
Import PyPath Navigation.

Example title_of_stem :
  display_name ["srv"; "content"; "my-first-post.md"] = "My First Post".
Proof. reflexivity. Qed.

(** The URL as the design document words it: the [.md] suffix, and
    only the suffix, stripped from the relative path. *)
Definition removesuffix_md (s : string) : string :=
  let n := String.length s in
  if String.eqb (String.substring (n - 3) 3 s) ".md" && Nat.leb 3 n
  then String.substring 0 (n - 3) s else s.

Definition spec_entry_url (rel_path : list string) : string :=
  String.append "/"
    (PyStr.replace backslash "/" (removesuffix_md (str_relative rel_path))).

(** A content tree: [/srv/content/posts] holds a page, the backup copy
    an editor left of another, and a sub-folder with its index. *)
Definition content_root : Path := ["srv"; "content"].
Definition posts : Path := ["srv"; "content"; "posts"].

Definition tree_is_dir (p : Path) : outcome bool :=
  Return (existsb (Py.list_eqb String.eqb p)
            [content_root; posts; posts ++ ["drafts"]]).

Definition tree_exists (p : Path) : outcome bool :=
  Return (existsb (Py.list_eqb String.eqb p)
            [content_root; posts; posts ++ ["drafts"];
             posts ++ ["drafts"; "index.md"];
             posts ++ ["post.md.bak"]; posts ++ ["hello-world.md"];
             posts ++ ["index.md"]]).

Definition tree_iterdir (p : Path) : outcome (list string) :=
  if Py.list_eqb String.eqb p posts
  then Return ["post.md.bak"; "index.md"; "hello-world.md"; "drafts"]
  else Raise (OtherError "not a directory").

(** Every listed entry carries the display name of its stem and the
    URL built from its path relative to the content root. *)
Lemma visit_item
  (fs_exists fs_is_dir : Path -> outcome bool)
  (folder : Path) (current_url : string) (root : Path)
  (entry_name : string) (item : NavItem) :
  visit fs_exists fs_is_dir folder current_url root entry_name
  = Return (Some item) ->
  exists rel_path,
    relative_to (folder ++ [entry_name]) root = Some rel_path /\
    url item = entry_url rel_path /\
    item_name item = display_name (folder ++ [entry_name]) /\
    is_active item = (url item =? current_url).
Proof.
  unfold visit.
  destruct (PyStr.startswith "." entry_name); [discriminate|].
  destruct (entry_name =? "index.md"); [discriminate|].
  destruct (fs_is_dir (folder ++ [entry_name])) as [d|e]; [|discriminate].
  cbn [Loader.bind].
  destruct (if d then _ else _) as [skip|e]; [|discriminate].
  cbn [Loader.bind]. destruct skip; [discriminate|].
  destruct (relative_to (folder ++ [entry_name]) root) as [rel|];
    [|discriminate].
  cbn [Loader.bind]. intros H. injection H as <-.
  exists rel. repeat split.
Qed.

(** C9 on this tree.  The names are as described, and so is the URL of
    an entry in which [.md] occurs only as the suffix; but every
    occurrence of [.md] is removed, not the suffix alone: the backup
    file [post.md.bak] is listed under [/posts/post.bak], where the
    suffix rule gives [/posts/post.md.bak]. *)
Theorem navigation_url_drops_inner_md :
  get_directory_navigation tree_exists tree_is_dir tree_iterdir posts
    "/posts/hello-world" content_root
  = Return
      [mkItem "Drafts" "/posts/drafts" false true;
       mkItem "Hello World" "/posts/hello-world" true false;
       mkItem "Post.Md" "/posts/post.bak" false false]
  /\ entry_url ["posts"; "post.md.bak"] = "/posts/post.bak"
  /\ spec_entry_url ["posts"; "post.md.bak"] = "/posts/post.md.bak"
  /\ spec_entry_url ["posts"; "hello-world.md"] = "/posts/hello-world".
Proof. repeat split. Qed.

End NavigationFacts.

(** ** The configuration models *)

Module ModelsFacts.
Import Py Models.

(** A required field that the data does not give makes the
    construction fail. *)
Lemma construct_missing_required
  (valid_http_url : string -> bool) (valid_model : PyVal -> bool)
  (fields : list Field) (data : Kwargs) (f : Field) :
  In f fields -> fdefault f = None -> dict_get (fname f) data = None ->
  raises (construct valid_http_url valid_model fields data).
Proof.
  intros Hin Hd Hg. induction fields as [|g rest IH]; [contradiction|].
  cbn [construct].
  destruct Hin as [->|Hin].
  - rewrite Hg, Hd. cbn. eexists. reflexivity.
  - destruct (IH Hin) as [e He]. rewrite He.
    match goal with
    | |- raises (Loader.bind ?v _) => destruct v as [v'|e']
    end; cbn; eexists; reflexivity.
Qed.

Lemma SiteData_without_open_graph (valid_http_url : string -> bool)
  (data : Kwargs) :
  dict_get "open_graph" data = None -> raises (SiteData valid_http_url data).
Proof.
  intros H. unfold SiteData.
  apply (construct_missing_required _ _ _ _
           (mkField "open_graph" (TOptional TModel) None)); cbn; auto 10.
Qed.

(** C7 on the code.  [open_graph] is declared without a default, so it
    is required: constructing Site Data with no field at all, or with
    a name only, fails with "Field required" for [open_graph]; the
    other five fields may be left out once [open_graph] is given, be
    it as [None]. *)
Theorem SiteData_requires_open_graph (valid_http_url : string -> bool) :
  SiteData valid_http_url []
  = Raise (ValidationError "open_graph" "Field required")
  /\ SiteData valid_http_url [("name", PStr "Moosey")]
     = Raise (ValidationError "open_graph" "Field required")
  /\ SiteData valid_http_url [("open_graph", PNone)]
     = Return [("name", PNone); ("keywords", PNone); ("description", PNone);
               ("author", PNone); ("social", PNone); ("open_graph", PNone)].
Proof. repeat split. Qed.

Example SiteData_rejects_bad_social :
  SiteData (String.prefix "https://")
    [("social", PDict [("x", PStr "not a url")]); ("open_graph", PNone)]
  = Raise (ValidationError "social" "Input is not valid").
Proof. reflexivity. Qed.

Example SiteData_accepts_open_graph :
  is_return (SiteData (String.prefix "https://")
    [("name", PStr "Moosey");
     ("open_graph", PDict [("og_image", PStr "/img/og.png")])]) = true.
Proof. reflexivity. Qed.

End ModelsFacts.

(** ** Splitting and joining path strings *)

Module PyStrFacts.
Import PyStr.

Definition sep_free (c : ascii) (p : string) : Prop := contains_char c p = false.

Lemma split_not_nil (c : ascii) (s : string) : split c s <> [].
Proof.
  destruct s as [|a s]; cbn; [discriminate|].
  destruct (Ascii.eqb a c); [discriminate|].
  destruct (split c s); discriminate.
Qed.

(** No piece of a split holds the separator. *)
Lemma split_sep_free (c : ascii) (s : string) :
  Forall (sep_free c) (split c s).
Proof.
  induction s as [|a s IH]; cbn.
  - repeat constructor.
  - destruct (Ascii.eqb a c) eqn:E.
    + constructor; [reflexivity | exact IH].
    + destruct (split c s) as [|w ws].
      * repeat constructor. unfold sep_free. cbn. now rewrite E.
      * inversion IH; subst. constructor; [|assumption].
        unfold sep_free in *. cbn. now rewrite E.
Qed.

(** Joining the pieces of a split gives the string back. *)
Lemma join_split (c : ascii) (s : string) :
  join (String c "") (split c s) = s.
Proof.
  unfold join. induction s as [|a s IH]; cbn; [reflexivity|].
  destruct (Ascii.eqb_spec a c) as [->|Hne].
  - pose proof (split_not_nil c s) as Hn.
    destruct (split c s) as [|w ws]; [contradiction|].
    cbn in *. now rewrite IH.
  - destruct (split c s) as [|w ws] eqn:E.
    + now destruct (split_not_nil c s).
    + cbn in *. destruct ws as [|w' ws'].
      * now rewrite <- IH.
      * rewrite <- IH. reflexivity.
Qed.

Lemma split_sep_free_piece (c : ascii) (p : string) :
  sep_free c p -> split c p = [p].
Proof.
  unfold sep_free. induction p as [|a p IH]; cbn; [reflexivity|].
  intros H. apply orb_false_iff in H as [Ha Hp].
  rewrite Ha, (IH Hp). reflexivity.
Qed.

Lemma split_app_sep (c : ascii) (p rest : string) :
  sep_free c p ->
  split c (p ++ String c rest) = p :: split c rest.
Proof.
  unfold sep_free. induction p as [|a p IH]; cbn.
  - intros _. now rewrite Ascii.eqb_refl.
  - intros H. apply orb_false_iff in H as [Ha Hp].
    rewrite Ha, (IH Hp). reflexivity.
Qed.

(** Splitting the join of separator-free pieces gives the pieces back. *)
Lemma split_join (c : ascii) (l : list string) :
  l <> [] -> Forall (sep_free c) l ->
  split c (join (String c "") l) = l.
Proof.
  unfold join. induction l as [|p l IH]; [contradiction|].
  intros _ Hall. inversion Hall as [|? ? Hp Hl]; subst.
  destruct l as [|q l].
  - cbn. now apply split_sep_free_piece.
  - change (String.concat (String c "") (p :: q :: l))
      with (p ++ String c (String.concat (String c "") (q :: l)))%string.
    rewrite split_app_sep by assumption.
    f_equal. apply IH; [discriminate | assumption].
Qed.

Lemma lstrip_no_lead (c : ascii) (s : string) :
  startswith (String c "") (lstrip c s) = false.
Proof.
  unfold startswith. induction s as [|a s IH]; cbn; [reflexivity|].
  destruct (Ascii.eqb_spec a c) as [->|Hne]; [exact IH|].
  cbn. destruct (Ascii.ascii_dec c a); [congruence | reflexivity].
Qed.

Lemma rstrip_no_lead (c : ascii) (s : string) :
  startswith (String c "") s = false ->
  startswith (String c "") (rstrip c s) = false.
Proof.
  unfold startswith. destruct s as [|a s]; cbn; [reflexivity|].
  destruct (Ascii.ascii_dec c a) as [->|Hne].
  - destruct s; discriminate.
  - intros _. destruct (Ascii.eqb_spec a c) as [->|Hne']; [congruence|].
    cbn. destruct (Ascii.ascii_dec c a); [congruence | reflexivity].
Qed.

(** A stripped string does not start with the stripped character. *)
Lemma strip_no_lead (c : ascii) (s : string) :
  startswith (String c "") (strip c s) = false.
Proof. unfold strip. apply rstrip_no_lead, lstrip_no_lead. Qed.

Lemma lstrip_fixed (c : ascii) (s : string) :
  startswith (String c "") s = false -> lstrip c s = s.
Proof.
  unfold startswith. destruct s as [|a s]; cbn; [reflexivity|].
  destruct (Ascii.ascii_dec c a) as [->|Hne].
  - destruct s; discriminate.
  - intros _. destruct (Ascii.eqb_spec a c); [congruence | reflexivity].
Qed.

Lemma rstrip_sep_free (c : ascii) (p : string) :
  sep_free c p -> rstrip c p = p.
Proof.
  unfold sep_free. induction p as [|a p IH]; cbn; [reflexivity|].
  intros H. apply orb_false_iff in H as [Ha Hp].
  now rewrite Ha, (IH Hp).
Qed.

Lemma append_assoc (s t u : string) : ((s ++ t) ++ u = s ++ (t ++ u))%string.
Proof. induction s as [|a s IH]; cbn; [reflexivity | now rewrite IH]. Qed.

Lemma rstrip_app (c : ascii) (s t : string) :
  rstrip c t <> "" -> rstrip c (s ++ t) = (s ++ rstrip c t)%string.
Proof.
  intros Ht. induction s as [|a s IH]; cbn; [reflexivity|].
  rewrite IH.
  destruct (s ++ rstrip c t)%string eqn:E.
  - destruct s; cbn in E; [contradiction | discriminate].
  - rewrite andb_false_r. reflexivity.
Qed.

End PyStrFacts.

(** ** URL segments and breadcrumbs *)

Module BreadcrumbFacts.
Import PyStr PyStrFacts Templates Breadcrumbs.

Definition slash : ascii := "/"%char.

(** A clean segment: not empty, and without a slash. *)
Definition clean (p : string) : Prop := p <> "" /\ sep_free slash p.

Lemma nonempty_true (p : string) : nonempty p = true <-> p <> "".
Proof.
  unfold nonempty. destruct (String.eqb_spec p ""); cbn; split; congruence.
Qed.

(** The segments of any path string are clean. *)
Lemma path_parts_clean (path_str : string) : Forall clean (path_parts path_str).
Proof.
  unfold path_parts. apply Forall_forall. intros p Hin.
  apply filter_In in Hin as [Hin Hne]. split.
  - now apply nonempty_true.
  - pose proof (split_sep_free slash (strip slash path_str)) as H.
    rewrite Forall_forall in H. now apply H.
Qed.

Lemma filter_clean (l : list string) : Forall clean l -> filter nonempty l = l.
Proof.
  induction 1 as [|p l [Hp _] _ IH]; cbn; [reflexivity|].
  apply nonempty_true in Hp. now rewrite Hp, IH.
Qed.

Lemma join_clean_no_lead (l : list string) :
  Forall clean l -> startswith "/" (join "/" l) = false.
Proof.
  intros H. destruct H as [|p l [Hne Hfree] _]; [reflexivity|].
  destruct p as [|a p]; [contradiction|].
  unfold sep_free in Hfree. cbn [contains_char] in Hfree.
  apply orb_false_iff in Hfree as [Ha _].
  assert (Hne' : "/"%char <> a).
  { intros <-. unfold slash in Ha. now rewrite Ascii.eqb_refl in Ha. }
  unfold startswith, join.
  destruct l; cbn [String.concat String.append String.prefix];
    destruct (Ascii.ascii_dec "/" a); try contradiction; reflexivity.
Qed.

Lemma join_clean_nonempty (l : list string) :
  l <> [] -> Forall clean l -> join "/" l <> "".
Proof.
  intros Hl H. destruct H as [|p l [Hne _] _]; [contradiction|].
  destruct p as [|a p]; [contradiction|].
  unfold join. destruct l; cbn; discriminate.
Qed.

Lemma rstrip_join_clean (l : list string) :
  Forall clean l -> rstrip slash (join "/" l) = join "/" l.
Proof.
  induction 1 as [|p l [Hne Hfree] Hl IH]; [reflexivity|].
  destruct l as [|q l].
  - cbn. now apply rstrip_sep_free.
  - change (join "/" (p :: q :: l))
      with (p ++ String slash (join "/" (q :: l)))%string.
    assert (Hj : join "/" (q :: l) <> "").
    { apply join_clean_nonempty; [discriminate | assumption]. }
    assert (Hr : rstrip slash (String slash (join "/" (q :: l)))
                 = String slash (join "/" (q :: l))).
    { cbn [rstrip]. rewrite IH.
      destruct (join "/" (q :: l)) eqn:E; [contradiction|].
      now rewrite andb_false_r. }
    rewrite rstrip_app; rewrite Hr; [reflexivity | discriminate].
Qed.

(** Round trip: clean segments joined by slashes split back into
    themselves. *)
Lemma path_parts_join (l : list string) :
  Forall clean l -> path_parts (join "/" l) = l.
Proof.
  intros H. unfold path_parts, strip.
  rewrite lstrip_fixed by now apply join_clean_no_lead.
  fold slash. rewrite rstrip_join_clean by assumption.
  destruct l as [|p l]; [reflexivity|].
  rewrite split_join.
  - now apply filter_clean.
  - discriminate.
  - eapply Forall_impl; [|exact H]. now intros x [_ Hx].
Qed.

Lemma path_parts_leading_slash (s : string) :
  path_parts (String slash s) = path_parts s.
Proof. reflexivity. Qed.

(** The crumb of a non-empty prefix of the segments. *)
Definition crumb_of (pre : list string) : Crumb :=
  mkCrumb (title (replace "-" " " (last pre "")))
          (String slash (join "/" pre)).

Lemma join_snoc (l : list string) (p : string) :
  l <> [] -> join "/" (l ++ [p]) = (join "/" l ++ "/" ++ p)%string.
Proof.
  unfold join. induction l as [|x l IH]; [contradiction|].
  intros _. destruct l as [|y l].
  - reflexivity.
  - change (String.concat "/" ((x :: y :: l) ++ [p]))
      with (x ++ "/" ++ String.concat "/" ((y :: l) ++ [p]))%string.
    rewrite IH by discriminate.
    change (String.concat "/" (x :: y :: l))
      with (x ++ "/" ++ String.concat "/" (y :: l))%string.
    now rewrite !append_assoc.
Qed.

Lemma fold_step (rest : list string) :
  forall (done : list string) (current : string) (crumbs : list Crumb),
    current = match done with
              | [] => ""
              | _ => String slash (join "/" done)
              end ->
    snd (fold_left step rest (current, crumbs))
    = crumbs ++ map (fun k => crumb_of (firstn k (done ++ rest)))
                    (seq (S (length done)) (length rest)).
Proof.
  induction rest as [|p rest IH]; intros done current crumbs Hc.
  - cbn. now rewrite app_nil_r.
  - cbn [fold_left]. unfold step at 2. cbn [fst snd].
    rewrite (IH (done ++ [p])).
    + rewrite <- app_assoc. cbn [app length seq map].
      rewrite <- !app_assoc. cbn [app]. f_equal. f_equal.
      * unfold crumb_of.
        replace (firstn (S (length done)) (done ++ p :: rest))
          with (done ++ [p]).
        2:{ replace (S (length done)) with (length done + 1) by lia.
            rewrite firstn_app_2. reflexivity. }
        rewrite last_last. f_equal. subst current.
        destruct done as [|d done]; [reflexivity|].
        rewrite join_snoc by discriminate. reflexivity.
      * rewrite length_app. cbn [length].
        replace (length done + 1) with (S (length done)) by lia.
        reflexivity.
    + subst current. destruct done as [|d done]; [reflexivity|].
      rewrite join_snoc by discriminate. reflexivity.
Qed.

(** X1.  The trail is [Home] followed by one crumb per segment: the k-th
    has the title-cased name of the k-th segment and the URL made of
    the first k segments. *)
Theorem get_breadcrumbs_trail (url_path : string) :
  let parts := path_parts url_path in
  get_breadcrumbs url_path
  = mkCrumb "Home" "/"
    :: map (fun k => crumb_of (firstn k parts)) (seq 1 (length parts)).
Proof.
  intros parts. unfold get_breadcrumbs. fold parts.
  now rewrite (fold_step parts [] "" [mkCrumb "Home" "/"]).
Qed.

Example breadcrumbs_of_story :
  get_breadcrumbs "/posts/stories/my-story"
  = [mkCrumb "Home" "/"; mkCrumb "Posts" "/posts";
     mkCrumb "Stories" "/posts/stories";
     mkCrumb "My Story" "/posts/stories/my-story"].
Proof. reflexivity. Qed.

Lemma Forall_prefix {A} (P : A -> Prop) (k : nat) (l : list A) :
  Forall P l -> Forall P (firstn k l).
Proof.
  revert k. induction l as [|x l IH]; intros [|k] H; cbn; try constructor.
  - now inversion H.
  - apply IH. now inversion H.
Qed.

(** X2.  Every crumb but [Home] links to a prefix of the page's path: read
    back as a path, the URL of the k-th crumb has exactly the first k
    segments of the page. *)
Theorem breadcrumb_urls_are_prefixes (url_path : string) (k : nat) (d : Crumb) :
  1 <= k <= length (path_parts url_path) ->
  path_parts (crumb_url (nth k (get_breadcrumbs url_path) d))
  = firstn k (path_parts url_path).
Proof.
  intros Hk. unfold get_breadcrumbs.
  set (parts := path_parts url_path) in *.
  rewrite (fold_step parts [] "" [mkCrumb "Home" "/"]) by reflexivity.
  cbn [app length firstn seq].
  destruct k as [|k]; [lia|]. cbn [nth].
  rewrite (nth_indep _ d (crumb_of (firstn 0 parts))).
  2:{ rewrite length_map, length_seq. lia. }
  rewrite (map_nth (fun k => crumb_of (firstn k parts))).
  rewrite seq_nth by lia. cbn [crumb_of crumb_url Nat.add].
  rewrite path_parts_leading_slash. apply path_parts_join.
  apply Forall_prefix. apply path_parts_clean.
Qed.

Lemma breadcrumb_urls_are_prefixes_witness :
  path_parts (crumb_url (nth 2 (get_breadcrumbs "//posts//stories/my-story/")
                           (mkCrumb "" "")))
  = firstn 2 (path_parts "//posts//stories/my-story/").
Proof.
  apply (breadcrumb_urls_are_prefixes "//posts//stories/my-story/" 2).
  vm_compute. lia.
Defined.

(** X3.  Normal form: the segments of a path, joined and split again, are
    the same segments. *)
Theorem path_parts_idempotent (path_str : string) :
  Forall clean (path_parts path_str) /\
  path_parts (join "/" (path_parts path_str)) = path_parts path_str.
Proof.
  split; [apply path_parts_clean|].
  apply path_parts_join, path_parts_clean.
Qed.

End BreadcrumbFacts.

(** ** Template resolution: the search as a whole *)

Module ResolutionFacts.
Import Templates.

Section Order.

Variable template_exists : string -> bool.
Variable singularize : string -> string.

(** The candidates of the parent search, in the order they are tried:
    from the deepest folder up, the item template (unless an index is
    rendered) before the folder template. *)
Fixpoint level_candidates (is_index_file : bool) (parts : list string)
  (n : nat) : list string :=
  match n with
  | O => []
  | S m =>
      let cur := firstn n parts in
      (if is_index_file then []
       else [html (removelast cur ++ [singularize (last cur "")])])
      ++ html cur :: level_candidates is_index_file parts m
  end.

(** All candidates of a resolution, in order. *)
Definition candidates (is_index_file : bool) (parts : list string)
  : list string :=
  if is_index_file then level_candidates true parts (length parts)
  else html parts :: level_candidates false parts (pred (length parts)).

Definition first_existing (cs : list string) : string :=
  match find template_exists cs with
  | Some c => c
  | None => "page.html"
  end.

Lemma parent_search_first (is_index_file : bool) (parts : list string) (n : nat) :
  parent_search template_exists singularize is_index_file parts n
  = first_existing (level_candidates is_index_file parts n).
Proof.
  unfold first_existing.
  induction n as [|m IH]; [reflexivity|].
  cbn -[firstn]. destruct is_index_file; cbn -[firstn].
  - destruct (template_exists (html (firstn (S m) parts))); [reflexivity|].
    exact IH.
  - destruct (template_exists _); [reflexivity|].
    destruct (template_exists (html (firstn (S m) parts))); [reflexivity|].
    exact IH.
Qed.

Lemma first_existing_found (cs : list string) :
  first_existing cs = "page.html" \/ template_exists (first_existing cs) = true.
Proof.
  unfold first_existing.
  destruct (find template_exists cs) as [c|] eqn:F; [right | now left].
  now apply find_some in F.
Qed.

(** X4.  Apart from the home page served by [index.html], the template
    chosen is the first candidate that exists, and [page.html] when
    none does. *)
Theorem find_best_template_first_existing
  (path_str : string) (is_index_file : bool) :
  find_best_template template_exists singularize path_str is_index_file
  = if Nat.eqb (length (path_parts path_str)) 0 && template_exists "index.html"
    then "index.html"
    else first_existing (candidates is_index_file (path_parts path_str)).
Proof.
  unfold find_best_template, candidates.
  destruct (Nat.eqb _ 0 && template_exists "index.html"); [reflexivity|].
  destruct is_index_file; cbn [negb].
  - apply parent_search_first.
  - unfold first_existing at 1. cbn [find].
    destruct (template_exists (html (path_parts path_str))); [reflexivity|].
    apply parent_search_first.
Qed.

(** X5.  The template chosen exists, unless it is the [page.html] fallback. *)
Theorem find_best_template_exists_or_fallback
  (path_str : string) (is_index_file : bool) :
  let r := find_best_template template_exists singularize path_str
             is_index_file in
  r = "page.html" \/ template_exists r = true.
Proof.
  intros r. subst r. unfold find_best_template.
  destruct (Nat.eqb _ 0 && template_exists "index.html") eqn:E.
  - right. now apply andb_true_iff in E.
  - destruct is_index_file; cbn [negb].
    + rewrite parent_search_first. apply first_existing_found.
    + destruct (template_exists (html (path_parts path_str))) eqn:X;
        [now right|].
      rewrite parent_search_first. apply first_existing_found.
Qed.

(** X6.  An index render of a nested folder uses the template of the
    deepest folder of the path that has one. *)
Theorem index_render_deepest_folder
  (path_str : string) (k : nat) :
  let parts := path_parts path_str in
  1 <= k <= length parts ->
  template_exists (html (firstn k parts)) = true ->
  (forall j, k < j <= length parts ->
             template_exists (html (firstn j parts)) = false) ->
  find_best_template template_exists singularize path_str true
  = html (firstn k parts).
Proof.
  intros parts Hk Hex Hdeeper. unfold find_best_template. fold parts.
  replace (Nat.eqb (length parts) 0) with false
    by (symmetry; apply Nat.eqb_neq; lia).
  cbn [andb negb].
  assert (G : forall n, k <= n <= length parts ->
            parent_search template_exists singularize true parts n
            = html (firstn k parts)).
  { induction n as [|m IH]; intros Hn; [lia|].
    cbn -[firstn].
    destruct (Nat.eq_dec k (S m)) as [->|Hne].
    - now rewrite Hex.
    - rewrite Hdeeper by lia. apply IH. lia. }
  apply G. lia.
Qed.

(** X7.  The home page: a path without segments is rendered with
    [index.html] when it exists; failing that, a page render tries the
    template named [.html] before the fallback, and an index render
    goes straight to the fallback. *)
Theorem find_best_template_home (path_str : string) (is_index_file : bool) :
  path_parts path_str = [] ->
  find_best_template template_exists singularize path_str is_index_file
  = if template_exists "index.html" then "index.html"
    else if negb is_index_file && template_exists ".html" then ".html"
    else "page.html".
Proof.
  intros Hnil. unfold find_best_template. rewrite Hnil. cbn.
  destruct (template_exists "index.html"); [reflexivity|].
  destruct is_index_file; cbn; [reflexivity|].
  destruct (template_exists ".html"); reflexivity.
Qed.

End Order.

Lemma find_best_template_home_witness :
  find_best_template (in_dir ["page.html"; ".html"]) (fun s => s) "//" false
  = ".html".
Proof.
  apply (find_best_template_home (in_dir ["page.html"; ".html"]) (fun s => s)
           "//" false).
  reflexivity.
Defined.

Lemma index_render_deepest_folder_witness :
  find_best_template (in_dir ["page.html"; "posts.html"; "posts/story.html"])
    (fun s => s) "posts/stories/2024" true
  = html (firstn 1 (path_parts "posts/stories/2024")).
Proof.
  apply (index_render_deepest_folder
           (in_dir ["page.html"; "posts.html"; "posts/story.html"])
           (fun s => s) "posts/stories/2024" 1).
  - vm_compute. lia.
  - reflexivity.
  - intros j Hj. change (length (path_parts "posts/stories/2024")) with 3 in Hj.
    assert (Hc : j = 2 \/ j = 3) by lia.
    destruct Hc as [-> | ->]; reflexivity.
Defined.

End ResolutionFacts.

(** ** Which arguments can be cached *)

Module KeyFacts.
Import Py Cachetools Cache PyFacts SortFacts HashableFacts.

(** The arguments for which a key can be built: tuples must be
    hashable as they are, while lists, sets and mappings only need
    elements that can be normalized in turn. *)
Fixpoint normalizable (v : PyVal) : bool :=
  match v with
  | PTuple items => forallb hashable items
  | PList items | PSet items => forallb normalizable items
  | PDict items =>
      (fix all (items : Kwargs) : bool :=
         match items with
         | [] => true
         | (_, v) :: items' => normalizable v && all items'
         end) items
  | _ => true
  end.

Lemma forallb_perm {A} (f : A -> bool) (l l' : list A) :
  Permutation l l' -> forallb f l = forallb f l'.
Proof.
  induction 1 as [| x l l' _ IH | x y l | l l' l'' _ IH1 _ IH2]; cbn.
  - reflexivity.
  - now rewrite IH.
  - now rewrite !andb_assoc, (andb_comm (f y)).
  - now rewrite IH1.
Qed.

Lemma hashable_item_tuples_b (l : Kwargs) :
  forallb hashable (map item_tuple l) = forallb (fun kv => hashable (snd kv)) l.
Proof.
  induction l as [|kv l IH]; cbn; [reflexivity|].
  now rewrite andb_true_r, IH.
Qed.

(** The normal form is hashable exactly for normalizable values. *)
Lemma make_hashable_hashable (v : PyVal) :
  hashable (make_hashable v) = normalizable v.
Proof.
  induction v as [ | | | | | | | | items IH | items IH | items IH | items IH ]
    using PyVal_deep_ind; try reflexivity.
  - cbn. induction IH as [|x l Hx _ IHl]; cbn; [reflexivity|].
    now rewrite Hx, IHl.
  - cbn. induction IH as [|x l Hx _ IHl]; cbn; [reflexivity|].
    now rewrite Hx, IHl.
  - rewrite make_hashable_dict. cbn [hashable].
    rewrite hashable_item_tuples_b.
    rewrite <- (forallb_perm _ _ _ (sorted_items_perm _)).
    cbn [normalizable]. unfold make_hashable_items.
    induction IH as [|[k x] l Hx _ IHl]; [reflexivity|].
    cbn [map forallb fst snd] in *. now rewrite Hx, IHl.
Qed.

Lemma kw_part_hashable_b (l : Kwargs) :
  forallb hashable (kw_part l) = forallb (fun kv => hashable (snd kv)) l.
Proof.
  destruct l as [|x l]; [reflexivity|].
  rewrite (forallb_perm (fun kv => hashable (snd kv)) _ _
             (sorted_items_perm (x :: l))).
  unfold kw_part.
  generalize (sorted_items (x :: l)). intros s.
  change (forallb hashable (PKwMark :: ?r)) with (forallb hashable r).
  induction s as [|kv s IH]; cbn; [reflexivity|]. now rewrite IH.
Qed.

(** X9.  The key of a call is hashable exactly when every positional and
    keyword argument is normalizable. *)
Theorem cache_key_hashable (args : Args) (kwargs : Kwargs) :
  hashable (cache_key args kwargs)
  = forallb normalizable args
    && forallb (fun kv => normalizable (snd kv)) kwargs.
Proof.
  unfold cache_key, hashkey.
  fold (kw_part (make_hashable_items kwargs)).
  cbn [hashable]. rewrite forallb_app, kw_part_hashable_b. f_equal.
  - induction args as [|a args IH]; cbn; [reflexivity|].
    now rewrite make_hashable_hashable, IH.
  - unfold make_hashable_items.
    induction kwargs as [|[k v] kwargs IH]; [reflexivity|].
    cbn [map forallb fst snd]. now rewrite make_hashable_hashable, IH.
Qed.

Lemma make_hashable_fixed (v : PyVal) : hashable v = true -> make_hashable v = v.
Proof. destruct v; cbn; intros H; try reflexivity; discriminate. Qed.

(** [make_hashable] is idempotent. *)
Lemma make_hashable_idempotent (v : PyVal) :
  make_hashable (make_hashable v) = make_hashable v.
Proof. destruct v; reflexivity. Qed.

(** X10.  The container type is not part of the key: a list, a set and a
    tuple with the same hashable elements, in the same order, are
    looked up under one key. *)
Theorem sequences_share_a_key (items : list PyVal) :
  forallb hashable items = true ->
  cache_key [PList items] [] = cache_key [PTuple items] [] /\
  cache_key [PSet items] [] = cache_key [PTuple items] [].
Proof.
  intros H.
  assert (E : map make_hashable items = items).
  { induction items as [|x items IH]; [reflexivity|].
    cbn in H. apply andb_true_iff in H as [Hx Hi].
    cbn. now rewrite (make_hashable_fixed x Hx), IH. }
  unfold cache_key, hashkey. cbn. rewrite E. split; reflexivity.
Qed.

Lemma sequences_share_a_key_witness :
  cache_key [PList [PInt 1; PStr "a"]] [] = cache_key [PTuple [PInt 1; PStr "a"]] []
  /\ cache_key [PSet [PInt 1; PStr "a"]] [] = cache_key [PTuple [PInt 1; PStr "a"]] [].
Proof. apply (sequences_share_a_key [PInt 1; PStr "a"]). reflexivity. Defined.

End KeyFacts.

(** ** The shared cache *)

Module SharedCacheFacts.
Import Py Cachetools Cache PyFacts CachetoolsFacts HashableFacts CacheFnFacts KeyFacts.
Open Scope Z_scope.

(** X11.  The key holds the arguments only.  After a call of [f] that
    missed and returned [r], a call of any function [g] wrapped on the
    same cache with arguments of the same key is answered with [r]
    while the entry lives, and [g] is not called. *)
Theorem cache_shared_between_functions
  (f g : Func) (args1 args2 : Args) (kwargs1 kwargs2 : Kwargs)
  (c0 c0' : TTLCache) (r : PyVal) (t1 t1' t2 t2' : Z) :
  cache_key args1 kwargs1 = cache_key args2 kwargs2 ->
  hashable (cache_key args1 kwargs1) = true ->
  contains t1 (cache_key args1 kwargs1) c0 = false ->
  f args1 kwargs1 c0 = (Return r, c0') ->
  (1 <= maxsize c0')%nat ->
  t2 < t1' + ttl c0' ->
  exists c1 c2,
    wrapper f args1 kwargs1 t1 t1' c0 = (Return r, c1, [(args1, kwargs1)]) /\
    wrapper g args2 kwargs2 t2 t2' c1 = (Return r, c2, []).
Proof.
  intros E Hh Hc Hf Hm Ht.
  destruct (wrapper_miss f args1 kwargs1 t1 t1' c0 c0' r Hh Hc Hf Hm)
    as (c1 & Hw1 & Hfind).
  rewrite E in Hfind, Hh.
  destruct (wrapper_hit g args2 kwargs2 t2 t2' c1 _ Hh Hfind) as (c2 & Hw2).
  { unfold live. cbn [expires]. now apply Z.ltb_lt. }
  now exists c1, c2.
Qed.

(** [template_exists]-like and [find_best_template]-like functions on
    one cache: both take a templates object and a string. *)
Definition says_true : Func := fun _ _ c => (Return (PBool true), c).
Definition says_page : Func := fun _ _ c => (Return (PStr "page.html"), c).

Lemma cache_shared_between_functions_witness :
  exists c1 c2,
    wrapper says_true [PObject 1; PStr "post.html"] [] 0 1 cache
    = (Return (PBool true), c1, [([PObject 1; PStr "post.html"], [])]) /\
    wrapper says_page [PObject 1; PStr "post.html"] [] 2 3 c1
    = (Return (PBool true), c2, []).
Proof.
  apply (cache_shared_between_functions says_true says_page
           [PObject 1; PStr "post.html"] [PObject 1; PStr "post.html"] [] []
           cache cache (PBool true) 0 1 2 3); try reflexivity.
  cbn. lia.
Defined.

(** X12.  Once the entry has expired the function is called again. *)
Theorem cache_fn_expiry
  (func : Func) (args : Args) (kwargs : Kwargs)
  (c0 c0' : TTLCache) (r : PyVal) (t1 t1' t2 t2' : Z) :
  hashable (cache_key args kwargs) = true ->
  contains t1 (cache_key args kwargs) c0 = false ->
  func args kwargs c0 = (Return r, c0') ->
  (1 <= maxsize c0')%nat ->
  t1' + ttl c0' <= t2 ->
  exists c1,
    wrapper func args kwargs t1 t1' c0 = (Return r, c1, [(args, kwargs)]) /\
    snd (wrapper func args kwargs t2 t2' c1) = [(args, kwargs)].
Proof.
  intros Hh Hc Hf Hm Ht.
  destruct (wrapper_miss func args kwargs t1 t1' c0 c0' r Hh Hc Hf Hm)
    as (c1 & Hw1 & Hfind).
  exists c1. split; [exact Hw1|].
  unfold wrapper. rewrite Hh. cbn [negb].
  rewrite (contains_live _ _ _ _ Hfind). unfold live. cbn [expires].
  replace (t2 <? t1' + ttl c0') with false by (symmetry; apply Z.ltb_ge; lia).
  destruct (func args kwargs c1) as [[r'|e] c2]; [|reflexivity].
  destruct (setitem t2' (cache_key args kwargs) r' c2) as [[u|e] c3];
    reflexivity.
Qed.

Lemma cache_fn_expiry_witness :
  exists c1,
    wrapper count_args [PStr "a"] [] 0 0 cache
    = (Return (PInt 1), c1, [([PStr "a"], [])]) /\
    snd (wrapper count_args [PStr "a"] [] (3600 * 24 * 30 * second) 0 c1)
    = [([PStr "a"], [])].
Proof.
  apply (cache_fn_expiry count_args [PStr "a"] [] cache cache (PInt 1) 0 0
           (3600 * 24 * 30 * second) 0);
    first [reflexivity | cbn; lia | vm_compute; discriminate].
Defined.

(** *** Capacity *)

Definition within_capacity (c : TTLCache) : Prop :=
  (length (links c) <= maxsize c)%nat.

Lemma without_length (k : PyVal) (ls : list Link) :
  (length (without k ls) <= length ls)%nat.
Proof. apply filter_length_le. Qed.

Lemma without_length_present (k : PyVal) (ls : list Link) :
  existsb (has_key k) ls = true ->
  (length (without k ls) < length ls)%nat.
Proof.
  induction ls as [|l ls IH]; cbn; [discriminate|].
  destruct (has_key k l) eqn:E; cbn.
  - intros _. pose proof (without_length k ls). unfold without in *. lia.
  - intros H. apply IH in H. unfold without in *. lia.
Qed.

(** A store never leaves more links than [maxsize]. *)
Lemma setitem_within_capacity (now : Z) (k v : PyVal) (c : TTLCache) :
  within_capacity c -> within_capacity (snd (setitem now k v c)).
Proof.
  unfold within_capacity, setitem. intros Hc.
  pose proof (filter_length_le (live now) (links c)) as Hexp.
  fold (expire now (links c)) in *.
  destruct (Nat.ltb (maxsize c) 1) eqn:Em; cbn [snd links maxsize with_links].
  - lia.
  - apply Nat.ltb_ge in Em. rewrite length_app. cbn [length].
    destruct (existsb (has_key k) (expire now (links c))) eqn:Ek.
    + apply without_length_present in Ek. lia.
    + pose proof (without_length k
                    (skipn (length (expire now (links c)) + 1 - maxsize c)
                       (expire now (links c)))) as Hw.
      rewrite length_skipn in Hw. lia.
Qed.

Lemma getitem_within_capacity (now : Z) (k : PyVal) (c : TTLCache) :
  within_capacity c -> within_capacity (snd (getitem now k c)).
Proof.
  unfold within_capacity, getitem. intros Hc.
  destruct (find_link k c) as [l|] eqn:F; [|exact Hc].
  assert (Hlen : (length (without k (links c) ++ [l]) <= length (links c))%nat).
  { rewrite length_app. cbn [length].
    assert (Hex : existsb (has_key k) (links c) = true).
    { apply existsb_exists. exists l. unfold find_link in F.
      apply find_some in F. exact F. }
    apply without_length_present in Hex. lia. }
  destruct (live now l); cbn [snd links maxsize with_links]; lia.
Qed.

(** X13.  The wrapper keeps the cache within its capacity, for a function
    that does so itself. *)
Theorem wrapper_within_capacity
  (func : Func) (args : Args) (kwargs : Kwargs) (now later : Z) (c : TTLCache) :
  (forall c', within_capacity c' -> within_capacity (snd (func args kwargs c'))) ->
  within_capacity c ->
  within_capacity (snd (fst (wrapper func args kwargs now later c))).
Proof.
  intros Hfunc Hc. unfold wrapper.
  destruct (negb (hashable (cache_key args kwargs))); [exact Hc|].
  destruct (contains now (cache_key args kwargs) c).
  - pose proof (getitem_within_capacity now (cache_key args kwargs) c Hc) as Hg.
    destruct (getitem now (cache_key args kwargs) c) as [r c']. exact Hg.
  - pose proof (Hfunc c Hc) as Hf.
    destruct (func args kwargs c) as [[r|e] c1]; [|exact Hf].
    pose proof (setitem_within_capacity later (cache_key args kwargs) r c1 Hf)
      as Hs.
    destruct (setitem later (cache_key args kwargs) r c1) as [[u|e] c2];
      exact Hs.
Qed.

Lemma wrapper_within_capacity_witness :
  within_capacity
    (snd (fst (wrapper count_args [PStr "a"] [] 0 0 cache))).
Proof.
  apply (wrapper_within_capacity count_args [PStr "a"] [] 0 0 cache).
  - intros c' H. exact H.
  - unfold within_capacity. cbn. lia.
Defined.

End SharedCacheFacts.

(** ** Memoization of a pure function *)

Module TransparencyFacts.
Import Py Cachetools Cache PyFacts CachetoolsFacts.
Open Scope Z_scope.

Section Pure.

(** A function of its arguments alone. *)
Variable f : Args -> Kwargs -> outcome PyVal.

Definition lift : Func := fun args kwargs c => (f args kwargs, c).

(** [f] gives one result to all calls that share a key. *)
Definition respects_key : Prop :=
  forall a1 k1 a2 k2,
    py_eq (cache_key a1 k1) (cache_key a2 k2) = true -> f a1 k1 = f a2 k2.

(** Every link holds what [f] returns for the calls of its key. *)
Definition coherent (c : TTLCache) : Prop :=
  forall l, In l (links c) ->
  forall a k, py_eq (key l) (cache_key a k) = true -> f a k = Return (value l).

Lemma coherent_sub (c : TTLCache) (ls : list Link) :
  coherent c -> (forall l, In l ls -> In l (links c)) ->
  coherent (with_links c ls).
Proof. intros Hc Hsub l Hin. apply Hc, Hsub, Hin. Qed.

Lemma In_skipn {A} (n : nat) (l : list A) (x : A) : In x (skipn n l) -> In x l.
Proof.
  intros H. rewrite <- (firstn_skipn n l). apply in_or_app. now right.
Qed.

(** X14.  On a coherent cache the wrapped function answers as [f] does, hit
    or miss, and the cache stays coherent. *)
Theorem memoization_is_transparent
  (args : Args) (kwargs : Kwargs) (now later : Z) (c : TTLCache) :
  respects_key -> coherent c ->
  hashable (cache_key args kwargs) = true ->
  (1 <= maxsize c)%nat ->
  fst (fst (wrapper lift args kwargs now later c)) = f args kwargs /\
  coherent (snd (fst (wrapper lift args kwargs now later c))).
Proof.
  intros Hr Hc Hh Hm. unfold wrapper. rewrite Hh. cbn [negb].
  set (k := cache_key args kwargs).
  destruct (contains now k c) eqn:Ec.
  - unfold contains in Ec. unfold getitem.
    destruct (find_link k c) as [l|] eqn:F; [|discriminate].
    rewrite Ec. cbn [fst snd].
    unfold find_link in F. apply find_some in F as [Hin Hk].
    split.
    + symmetry. apply (Hc l Hin). exact Hk.
    + apply coherent_sub; [exact Hc|].
      intros l' Hl'. apply in_app_or in Hl' as [Hl'|[<-|[]]]; [|exact Hin].
      unfold without in Hl'. now apply filter_In in Hl'.
  - change (lift args kwargs c) with (f args kwargs, c).
    destruct (f args kwargs) as [r|e] eqn:Ef.
    + unfold setitem.
      destruct (Nat.ltb (maxsize c) 1) eqn:Em.
      { apply Nat.ltb_lt in Em. lia. }
      cbn [fst snd]. split; [reflexivity|].
      intros l Hin a' k' Hk'. cbn [links with_links] in Hin.
      apply in_app_or in Hin as [Hin|[<-|[]]].
      * apply (Hc l); [|exact Hk'].
        unfold without in Hin. apply filter_In in Hin as [Hin _].
        destruct (existsb (has_key k) (expire later (links c))).
        -- unfold expire in Hin. now apply filter_In in Hin.
        -- apply In_skipn in Hin. unfold expire in Hin.
           now apply filter_In in Hin.
      * cbn [key value] in *. rewrite <- Ef. symmetry. now apply Hr.
    + cbn [fst snd]. split; [reflexivity | exact Hc].
Qed.

End Pure.

Lemma memoization_is_transparent_witness :
  let f := fun (_ : Args) (_ : Kwargs) => Return (PStr "page.html") in
  fst (fst (wrapper (lift f) [PStr "posts"] [("is_index_file", PBool true)]
              0 1 cache))
  = f [PStr "posts"] [("is_index_file", PBool true)] /\
  coherent f (snd (fst (wrapper (lift f) [PStr "posts"]
                          [("is_index_file", PBool true)] 0 1 cache))).
Proof.
  intros f.
  apply (memoization_is_transparent f [PStr "posts"]
           [("is_index_file", PBool true)] 0 1 cache).
  - intros a1 k1 a2 k2 _. reflexivity.
  - intros l Hin. destruct Hin.
  - reflexivity.
  - cbn. lia.
Defined.

End TransparencyFacts.

(** ** The debounce is per (path, event type) pair *)

Module DebouncePairFacts.
Import Py Cachetools Cache CachetoolsFacts DebounceFacts.
Open Scope Z_scope.

Lemma change_key_differs (p1 e1 p2 e2 : string) :
  p1 <> p2 \/ e1 <> e2 ->
  py_eq (change_key p1 e1) (change_key p2 e2) = false.
Proof.
  intros H. cbn.
  destruct (String.eqb_spec p1 p2) as [->|]; [|reflexivity].
  destruct (String.eqb_spec e1 e2) as [->|]; [|reflexivity].
  destruct H; contradiction.
Qed.

Lemma find_none_sub (k : PyVal) (ls ls' : list Link) :
  (forall l, In l ls' -> In l ls) ->
  find (has_key k) ls = None -> find (has_key k) ls' = None.
Proof.
  intros Hsub Hn.
  destruct (find (has_key k) ls') as [l|] eqn:F; [|reflexivity].
  apply find_some in F as [Hin Hk].
  pose proof (find_none _ _ Hn l (Hsub l Hin)) as Hf. congruence.
Qed.

Lemma find_app_none (k : PyVal) (ls : list Link) (l : Link) :
  find (has_key k) ls = None -> has_key k l = false ->
  find (has_key k) (ls ++ [l]) = None.
Proof.
  intros Hn Hl. induction ls as [|x ls IH]; cbn in *.
  - now rewrite Hl.
  - destruct (has_key k x); [discriminate | now apply IH].
Qed.

(** A notification for one pair leaves every other pair that the
    debounce cache does not hold unheld. *)
Lemma notify_keeps_absent (p1 e1 p2 e2 : string) (t : Z) (st : State) :
  p1 <> p2 \/ e1 <> e2 ->
  find_link (change_key p2 e2) (debounce st) = None ->
  find_link (change_key p2 e2) (debounce (notify (p1, e1, t) st)) = None.
Proof.
  intros Hne Hn. unfold notify, clear_cache_on_file_change.
  fold (change_key p1 e1).
  assert (Hk : forall v x, has_key (change_key p2 e2)
                             (mkLink (change_key p1 e1) v x) = false).
  { intros v x. unfold has_key. cbn [key]. now apply change_key_differs. }
  unfold getitem. destruct (find_link (change_key p1 e1) (debounce st))
    as [l|] eqn:F.
  - assert (Hsub : find (has_key (change_key p2 e2))
                     (without (change_key p1 e1) (links (debounce st))) = None).
    { eapply find_none_sub; [|exact Hn].
      intros x Hx. unfold without in Hx. now apply filter_In in Hx. }
    assert (Hl : has_key (change_key p2 e2) l = false).
    { unfold find_link in F. apply find_some in F as [Hin _].
      unfold find_link in Hn. exact (find_none _ _ Hn l Hin). }
    destruct (live t l); cbn [snd debounce].
    + unfold find_link. cbn [links with_links]. now apply find_app_none.
    + unfold setitem, clear_cache. cbn [debounce maxsize links with_links].
      destruct (Nat.ltb _ 1); cbn [snd debounce main clears];
        unfold find_link; cbn [links with_links].
      * eapply find_none_sub; [|apply find_app_none; [exact Hsub | exact Hl]].
        intros x Hx. unfold expire in Hx. now apply filter_In in Hx.
      * apply find_app_none; [|apply Hk].
        eapply find_none_sub; [|apply find_app_none; [exact Hsub | exact Hl]].
        intros x Hx. unfold without in Hx. apply filter_In in Hx as [Hx _].
        destruct (existsb _ _).
        -- unfold expire in Hx. now apply filter_In in Hx.
        -- apply TransparencyFacts.In_skipn in Hx. unfold expire in Hx.
           now apply filter_In in Hx.
  - unfold setitem, clear_cache. cbn [debounce maxsize links with_links].
    destruct (Nat.ltb _ 1); cbn [snd debounce main clears];
      unfold find_link; cbn [links with_links].
    + eapply find_none_sub; [|exact Hn].
      intros x Hx. unfold expire in Hx. now apply filter_In in Hx.
    + apply find_app_none; [|apply Hk].
      eapply find_none_sub; [|exact Hn].
      intros x Hx. unfold without in Hx. apply filter_In in Hx as [Hx _].
      destruct (existsb _ _).
      * unfold expire in Hx. now apply filter_In in Hx.
      * apply TransparencyFacts.In_skipn in Hx. unfold expire in Hx.
        now apply filter_In in Hx.
Qed.

(** X15.  Two notifications for different pairs both clear, however close
    in time: a pair is never debounced by another. *)
Theorem debounce_is_per_pair
  (p1 e1 p2 e2 : string) (t1 t2 : Z) (st : State) :
  p1 <> p2 \/ e1 <> e2 ->
  find_link (change_key p1 e1) (debounce st) = None ->
  find_link (change_key p2 e2) (debounce st) = None ->
  clears (notify (p2, e2, t2) (notify (p1, e1, t1) st)) = S (S (clears st)).
Proof.
  intros Hne H1 H2.
  pose proof (notify_keeps_absent p1 e1 p2 e2 t1 st Hne H2) as H2'.
  assert (Hmiss : forall p e t s,
            find_link (change_key p e) (debounce s) = None ->
            clears (notify (p, e, t) s) = S (clears s)).
  { intros p e t s Hn. unfold notify, clear_cache_on_file_change.
    fold (change_key p e). unfold getitem. rewrite Hn.
    cbn [clear_cache debounce main clears].
    destruct (setitem _ _ _ _). reflexivity. }
  rewrite (Hmiss _ _ _ _ H2'), (Hmiss _ _ _ _ H1). reflexivity.
Qed.

Lemma debounce_is_per_pair_witness :
  clears (notify ("posts/a.md", "modified", 1)
            (notify ("posts/a.md", "created", 0) fresh)) = 2%nat.
Proof.
  apply (debounce_is_per_pair "posts/a.md" "created" "posts/a.md" "modified"
           0 1 fresh).
  - right. discriminate.
  - reflexivity.
  - reflexivity.
Defined.

End DebouncePairFacts.

(** ** The live-reload connection manager *)

Module ConnectionFacts.
Import ConnectionManager.

Lemma count_remove_first_same (x : WebSocket) (l : list WebSocket) :
  count_occ Nat.eq_dec (remove_first x l) x = pred (count_occ Nat.eq_dec l x).
Proof.
  induction l as [|y l IH]; cbn; [reflexivity|].
  destruct (Nat.eqb_spec y x) as [->|Hne].
  - destruct (Nat.eq_dec x x); [reflexivity | contradiction].
  - cbn. destruct (Nat.eq_dec y x); [contradiction | exact IH].
Qed.

Lemma count_remove_first_other (x z : WebSocket) (l : list WebSocket) :
  z <> x ->
  count_occ Nat.eq_dec (remove_first x l) z = count_occ Nat.eq_dec l z.
Proof.
  intros Hz. induction l as [|y l IH]; cbn; [reflexivity|].
  destruct (Nat.eqb_spec y x) as [->|Hne].
  - destruct (Nat.eq_dec x z); [congruence | reflexivity].
  - cbn. destruct (Nat.eq_dec y z); now rewrite IH.
Qed.

Lemma disconnect_remove (x : WebSocket) (l : list WebSocket) :
  disconnect x l = remove_first x l.
Proof.
  unfold disconnect. destruct (existsb (Nat.eqb x) l) eqn:E; [reflexivity|].
  induction l as [|y l IH]; [reflexivity|].
  cbn in *. apply orb_false_iff in E as [Ey El].
  rewrite Nat.eqb_sym, Ey. now rewrite <- IH.
Qed.

Lemma disconnect_absent (x : WebSocket) (l : list WebSocket) :
  ~ In x l -> disconnect x l = l.
Proof.
  rewrite disconnect_remove.
  intros Hnin. induction l as [|y l IH]; [reflexivity|].
  cbn. destruct (Nat.eqb_spec y x) as [->|Hne].
  - exfalso. apply Hnin. now left.
  - f_equal. apply IH. intros H. apply Hnin. now right.
Qed.

(** X16.  [disconnect] drops one registration of the socket and none of any
    other socket: a socket registered twice stays registered once. *)
Theorem disconnect_one_registration (x z : WebSocket) (l : list WebSocket) :
  z <> x ->
  count_occ Nat.eq_dec (disconnect x l) x = pred (count_occ Nat.eq_dec l x) /\
  count_occ Nat.eq_dec (disconnect x l) z = count_occ Nat.eq_dec l z.
Proof.
  intros Hz. rewrite disconnect_remove.
  split; [apply count_remove_first_same | now apply count_remove_first_other].
Qed.

Lemma disconnect_one_registration_witness :
  count_occ Nat.eq_dec (disconnect 7 [7; 3; 7]) 7
  = pred (count_occ Nat.eq_dec [7; 3; 7] 7) /\
  count_occ Nat.eq_dec (disconnect 7 [7; 3; 7]) 3
  = count_occ Nat.eq_dec [7; 3; 7] 3.
Proof. apply (disconnect_one_registration 7 3 [7; 3; 7]). discriminate. Defined.

Section Broadcast.

Variable send_text : WebSocket -> bool.

(** X17.  The message goes out to every socket of the snapshot whose send
    succeeds, in order, whatever the other tasks do to the live list
    in the meantime. *)
Theorem broadcast_reaches_snapshot
  (meanwhile : nat -> list WebSocket -> list WebSocket)
  (active_connections : list WebSocket) :
  snd (broadcast send_text meanwhile active_connections)
  = filter send_text active_connections.
Proof.
  unfold broadcast.
  assert (G : forall snapshot i live delivered,
            snd (broadcast_loop send_text meanwhile snapshot i live delivered)
            = delivered ++ filter send_text snapshot).
  { induction snapshot as [|x s IH]; intros i live delivered; cbn.
    - now rewrite app_nil_r.
    - destruct (send_text x); rewrite IH; [|reflexivity].
      now rewrite <- app_assoc. }
  now rewrite G.
Qed.

Definition undisturbed : nat -> list WebSocket -> list WebSocket :=
  fun _ l => l.

Lemma filter_remove_first_failed (x : WebSocket) (l : list WebSocket) :
  send_text x = false ->
  filter send_text (remove_first x l) = filter send_text l.
Proof.
  intros Hx. induction l as [|y l IH]; cbn; [reflexivity|].
  destruct (Nat.eqb_spec y x) as [->|Hne].
  - now rewrite Hx.
  - cbn. now rewrite IH.
Qed.

Lemma loop_undisturbed (snapshot : list WebSocket) :
  forall i live delivered,
    (forall x, send_text x = false ->
               count_occ Nat.eq_dec live x = count_occ Nat.eq_dec snapshot x) ->
    filter send_text
      (fst (broadcast_loop send_text undisturbed snapshot i live delivered))
    = filter send_text live /\
    forall x, send_text x = false ->
      count_occ Nat.eq_dec
        (fst (broadcast_loop send_text undisturbed snapshot i live delivered)) x
      = 0.
Proof.
  induction snapshot as [|y s IH]; intros i live delivered Hcount;
    cbn [broadcast_loop].
  - split; [reflexivity|]. exact Hcount.
  - change (undisturbed i live) with live. destruct (send_text y) eqn:Ey.
    + apply IH. intros x Hx. rewrite Hcount by assumption. cbn.
      destruct (Nat.eq_dec y x) as [->|]; [congruence | reflexivity].
    + rewrite disconnect_remove.
      destruct (IH (S i) (remove_first y live) delivered) as [Hf Hz].
      * intros x Hx. destruct (Nat.eq_dec x y) as [->|Hne].
        -- rewrite count_remove_first_same, Hcount by assumption. cbn.
           destruct (Nat.eq_dec y y); [reflexivity | contradiction].
        -- rewrite count_remove_first_other, Hcount by assumption. cbn.
           destruct (Nat.eq_dec y x); [congruence | reflexivity].
      * split; [|exact Hz].
        rewrite Hf. now apply filter_remove_first_failed.
Qed.

Lemma filter_all_pass (l : list WebSocket) :
  (forall x, send_text x = false -> count_occ Nat.eq_dec l x = 0) ->
  filter send_text l = l.
Proof.
  induction l as [|y l IH]; intros H; cbn; [reflexivity|].
  destruct (send_text y) eqn:Ey.
  - f_equal. apply IH. intros x Hx. specialize (H x Hx). cbn in H.
    destruct (Nat.eq_dec y x); [discriminate | exact H].
  - specialize (H y Ey). cbn in H.
    destruct (Nat.eq_dec y y); [discriminate | contradiction].
Qed.

(** X18.  A broadcast that no other task disturbs leaves registered exactly
    the sockets whose send succeeded, in their order: every
    registration of a failed socket is gone. *)
Theorem broadcast_drops_failed (active_connections : list WebSocket) :
  fst (broadcast send_text undisturbed active_connections)
  = filter send_text active_connections.
Proof.
  unfold broadcast.
  destruct (loop_undisturbed active_connections 0 active_connections [])
    as [Hf Hz]; [reflexivity|].
  rewrite <- Hf. symmetry. now apply filter_all_pass.
Qed.

End Broadcast.

Example fan_out_three :
  broadcast (fun ws => negb (Nat.eqb ws 2)) undisturbed [1; 2; 3]
  = ([1; 3], [1; 3]).
Proof. reflexivity. Qed.

End ConnectionFacts.

(** ** Syncing the sandbox *)

Module SandboxFacts.
Import Py Renderer LoaderFacts.

Lemma dict_get_update_other (k : string) (other d : Kwargs) :
  ~ In k (map fst other) -> dict_get k (dict_update d other) = dict_get k d.
Proof.
  unfold dict_update. revert d.
  induction other as [|[k0 v0] other IH]; intros d Hnin; [reflexivity|].
  cbn [fold_left fst snd]. cbn in Hnin.
  rewrite IH by tauto. apply dict_get_set_other. tauto.
Qed.

(** X19.  A global whose name is not on the whitelist is never written to
    the sandbox: what the sandbox holds under that name is what it
    held before. *)
Theorem sandbox_globals_whitelisted
  (main_env safe_env : Environment) (k : string) :
  existsb (String.eqb k) whitelist = false ->
  dict_get k (globals (ensure_sandbox_filters main_env safe_env))
  = dict_get k (globals safe_env).
Proof.
  intros Hk. unfold ensure_sandbox_filters.
  destruct (filters safe_env); [|reflexivity].
  cbn [globals]. apply dict_get_update_other.
  intros Hin. apply in_map_iff in Hin as ([k' v] & <- & Hin).
  apply filter_In in Hin as [_ Hw]. cbn [fst] in *.
  apply existsb_exists in Hw as (w & Hw & Heq).
  apply String.eqb_eq in Heq. subst w.
  assert (Hc : existsb (String.eqb k') whitelist = true).
  { apply existsb_exists. exists k'. split; [exact Hw | apply String.eqb_refl]. }
  congruence.
Qed.

Lemma sandbox_globals_whitelisted_witness :
  let main_env :=
    mkEnv [("fancy_date", PObject 1)]
          [("site_data", PDict []); ("request", PObject 2); ("mode", PStr "dev")] in
  dict_get "request" (globals (ensure_sandbox_filters main_env (mkEnv [] [])))
  = dict_get "request" (globals (mkEnv [] [])).
Proof.
  intros main_env.
  apply (sandbox_globals_whitelisted main_env (mkEnv [] []) "request").
  reflexivity.
Defined.

Section Reached.

Variable Template : Type.
Variable from_string : Environment -> string -> outcome Template.
Variable render : Template -> Kwargs -> outcome string.

(** X20.  A sandbox that holds a filter is left as it is: no filter and
    no global of the main environment is copied into it, and what the
    function under the decorator returns does not depend on the main
    templates at all. *)
Theorem sandbox_with_filters_unchanged
  (templates templates' safe_env : Environment) (content : string)
  (data : Kwargs) (safe : bool) :
  filters safe_env <> [] ->
  ensure_sandbox_filters templates safe_env = safe_env /\
  snd (template_render_content_body Template from_string render templates
         content data safe safe_env) = safe_env /\
  template_render_content_body Template from_string render templates content
    data safe safe_env
  = template_render_content_body Template from_string render templates'
      content data safe safe_env.
Proof.
  intros Hne.
  assert (E : forall t, ensure_sandbox_filters t safe_env = safe_env).
  { intros t. unfold ensure_sandbox_filters.
    destruct (filters safe_env); [contradiction | reflexivity]. }
  split; [apply E|].
  unfold template_render_content_body.
  destruct (content =? "")%string; [now split|].
  rewrite !E. now split.
Qed.

End Reached.

Lemma sandbox_with_filters_unchanged_witness :
  let templates :=
    mkEnv [("fancy_date", PObject 1)] [("site_data", PDict [])] in
  let templates' := mkEnv [] [] in
  let safe_env := mkEnv [("upper", PObject 0)] [] in
  ensure_sandbox_filters templates safe_env = safe_env /\
  snd (template_render_content_body string RendererFacts.toy_from_string
         RendererFacts.toy_render templates "{{ title }}" [] false safe_env)
  = safe_env /\
  template_render_content_body string RendererFacts.toy_from_string
    RendererFacts.toy_render templates "{{ title }}" [] false safe_env
  = template_render_content_body string RendererFacts.toy_from_string
      RendererFacts.toy_render templates' "{{ title }}" [] false safe_env.
Proof.
  intros templates templates' safe_env.
  apply (sandbox_with_filters_unchanged string RendererFacts.toy_from_string
           RendererFacts.toy_render templates templates' safe_env
           "{{ title }}" [] false).
  discriminate.
Defined.

End SandboxFacts.

(** ** What a model accepts *)

Module ConstructFacts.
Import Py Models.

Section Construct.

Variable valid_http_url : string -> bool.
Variable valid_model : PyVal -> bool.

(** A declared field is satisfied by the data when its value is given
    and accepted, or not given and the field has a default. *)
Definition satisfied (data : Kwargs) (f : Field) : bool :=
  match dict_get (fname f) data with
  | Some v => accepts valid_http_url valid_model (ftype f) v
  | None => match fdefault f with Some _ => true | None => false end
  end.

(** Construction succeeds exactly when every declared field is
    satisfied. *)
Lemma construct_succeeds_exactly (fields : list Field) (data : Kwargs) :
  is_return (construct valid_http_url valid_model fields data)
  = forallb (satisfied data) fields.
Proof.
  induction fields as [|f fields IH]; [reflexivity|].
  cbn [construct forallb]. unfold satisfied at 1.
  destruct (dict_get (fname f) data) as [v|].
  - destruct (accepts valid_http_url valid_model (ftype f) v);
      [|reflexivity].
    cbn [Loader.bind andb]. rewrite <- IH.
    destruct (construct valid_http_url valid_model fields data); reflexivity.
  - destruct (fdefault f); [|reflexivity].
    cbn [Loader.bind andb]. rewrite <- IH.
    destruct (construct valid_http_url valid_model fields data); reflexivity.
Qed.

(** The constructed record has the declared fields, in the declared
    order, and nothing else: keys of the data that are not declared
    are dropped. *)
Lemma construct_fields (fields : list Field) (data record : Kwargs) :
  construct valid_http_url valid_model fields data = Return record ->
  map fst record = map fname fields.
Proof.
  revert record. induction fields as [|f fields IH]; intros record; cbn.
  - intros H. now injection H as <-.
  - destruct (match dict_get (fname f) data with Some _ => _ | None => _ end)
      as [v|e]; [|discriminate].
    cbn [Loader.bind].
    destruct (construct valid_http_url valid_model fields data) as [vs|e];
      [|discriminate].
    cbn [Loader.bind]. intros H. injection H as <-. cbn. f_equal. now apply IH.
Qed.

End Construct.

(** X21.  Site Data is accepted exactly when [open_graph] is given, as
    [None] or as a mapping with a string [og_image], and each of the
    five other fields is left out, [None], or of its declared type. *)
Theorem SiteData_accepts_exactly
  (valid_http_url : string -> bool) (data : Kwargs) :
  is_return (SiteData valid_http_url data)
  = forallb (satisfied valid_http_url (OpenGraph_valid valid_http_url) data)
      SiteData_fields
  /\
  (forall og, OpenGraph_valid valid_http_url (PDict og)
              = match dict_get "og_image" og with
                | Some (PStr _) => true
                | _ => false
                end).
Proof.
  split; [apply construct_succeeds_exactly|].
  intros og. unfold OpenGraph_valid. rewrite construct_succeeds_exactly.
  unfold OpenGraph_fields, satisfied. cbn [forallb fname ftype fdefault].
  destruct (dict_get "og_image" og) as [[]|]; reflexivity.
Qed.

(** X22.  A Site Data that is accepted has the six declared fields and no
    other key. *)
Theorem SiteData_record_fields
  (valid_http_url : string -> bool) (data record : Kwargs) :
  SiteData valid_http_url data = Return record ->
  map fst record
  = ["name"; "keywords"; "description"; "author"; "social"; "open_graph"].
Proof. intros H. apply construct_fields in H. exact H. Qed.

Lemma SiteData_record_fields_witness :
  map fst [("name", PStr "Moosey"); ("keywords", PNone); ("description", PNone);
           ("author", PNone); ("social", PNone); ("open_graph", PNone)]
  = ["name"; "keywords"; "description"; "author"; "social"; "open_graph"].
Proof.
  apply (SiteData_record_fields (fun _ => true)
           [("theme", PStr "dark"); ("name", PStr "Moosey"); ("open_graph", PNone)]).
  reflexivity.
Defined.

End ConstructFacts.

(** ** What the navigation lists *)

Module NavigationListFacts.
Import PyPath Navigation.

Lemma insert_entry_perm (x : bool * string) (l : list (bool * string)) :
  Permutation (x :: l) (insert_entry x l).
Proof.
  induction l as [|y l IH]; cbn; [reflexivity|].
  destruct (key_ltb y x); [|reflexivity].
  rewrite perm_swap. now constructor.
Qed.

Lemma sort_entries_perm (l : list (bool * string)) :
  Permutation l (sort_entries l).
Proof.
  induction l as [|x l IH]; cbn; [constructor|].
  rewrite <- insert_entry_perm. now constructor.
Qed.

Section Listing.

Variable fs_exists : Path -> outcome bool.
Variable fs_is_dir : Path -> outcome bool.
Variable fs_iterdir : Path -> outcome (list string).
Variable folder : Path.
Variable current_url : string.
Variable root : Path.

Lemma sort_keys_names (names : list string) (keys : list (bool * string)) :
  sort_keys fs_is_dir folder names = Return keys -> map snd keys = names.
Proof.
  revert keys. induction names as [|n names IH]; intros keys; cbn.
  - intros H. now injection H as <-.
  - destruct (fs_is_dir (folder ++ [n])) as [d|e]; [|discriminate].
    cbn [Loader.bind].
    destruct (sort_keys fs_is_dir folder names) as [ks|e]; [|discriminate].
    cbn [Loader.bind]. intros H. injection H as <-. cbn. f_equal. now apply IH.
Qed.

Lemma scan_from (entries : list string) :
  forall items item,
    In item (scan fs_exists fs_is_dir folder current_url root entries items) ->
    In item items \/
    exists n, In n entries /\
      visit fs_exists fs_is_dir folder current_url root n = Return (Some item).
Proof.
  induction entries as [|n entries IH]; intros items item Hin; cbn in Hin.
  - now left.
  - destruct (visit fs_exists fs_is_dir folder current_url root n)
      as [[it|]|e] eqn:V.
    + apply IH in Hin as [Hin | (m & Hm & Hv)].
      * apply in_app_or in Hin as [Hin|[<-|[]]]; [now left|].
        right. exists n. split; [now left | exact V].
      * right. exists m. split; [now right | exact Hv].
    + apply IH in Hin as [Hin | (m & Hm & Hv)]; [now left|].
      right. exists m. split; [now right | exact Hv].
    + now left.
Qed.

(** What one listed entry went through. *)
Lemma visit_eligible (n : string) (item : NavItem) :
  visit fs_exists fs_is_dir folder current_url root n = Return (Some item) ->
  PyStr.startswith "." n = false /\
  n <> "index.md" /\
  fs_is_dir (folder ++ [n]) = Return (is_dir item) /\
  (is_dir item = true ->
   fs_exists (folder ++ [n] ++ ["index.md"]) = Return true) /\
  exists rel_path,
    relative_to (folder ++ [n]) root = Some rel_path /\
    url item = entry_url rel_path.
Proof.
  unfold visit.
  destruct (PyStr.startswith "." n); [discriminate|].
  destruct (String.eqb_spec n "index.md") as [|Hne]; [discriminate|].
  destruct (fs_is_dir (folder ++ [n])) as [d|e] eqn:D; [|discriminate].
  cbn [Loader.bind].
  destruct d.
  - rewrite <- app_assoc.
    destruct (fs_exists (folder ++ [n] ++ ["index.md"])) as [e|e] eqn:E;
      [|discriminate].
    cbn [Loader.bind]. destruct e; [|discriminate]. cbn [negb].
    destruct (relative_to (folder ++ [n]) root) as [rel|]; [|discriminate].
    cbn [Loader.bind]. intros H. injection H as <-. cbn [is_dir url].
    repeat split; try assumption. now exists rel.
  - cbn [Loader.bind].
    destruct (relative_to (folder ++ [n]) root) as [rel|]; [|discriminate].
    cbn [Loader.bind]. intros H. injection H as <-. cbn [is_dir url].
    repeat split; try assumption; [discriminate | now exists rel].
Qed.

(** X23.  Every item of the navigation stands for a child of the folder
    that is not hidden, is not [index.md], lies below the content root
    and, when it is a directory, holds an [index.md]. *)
Theorem navigation_lists_only_eligible (items : list NavItem) (item : NavItem) :
  get_directory_navigation fs_exists fs_is_dir fs_iterdir folder current_url
    root = Return items ->
  In item items ->
  exists names n,
    fs_iterdir folder = Return names /\ In n names /\
    PyStr.startswith "." n = false /\
    n <> "index.md" /\
    fs_is_dir (folder ++ [n]) = Return (is_dir item) /\
    (is_dir item = true ->
     fs_exists (folder ++ [n] ++ ["index.md"]) = Return true) /\
    exists rel_path,
      relative_to (folder ++ [n]) root = Some rel_path /\
      url item = entry_url rel_path.
Proof.
  unfold get_directory_navigation.
  destruct (fs_exists folder) as [e|x]; [|discriminate]. cbn [Loader.bind].
  destruct (if e then fs_is_dir folder else Return false) as [d|x];
    [|discriminate].
  cbn [Loader.bind]. destruct d; cbn [negb].
  2:{ intros H. injection H as <-. contradiction. }
  destruct (fs_iterdir folder) as [names|x] eqn:L; cbn [Loader.bind].
  2:{ intros H. injection H as <-. contradiction. }
  destruct (sort_keys fs_is_dir folder names) as [keys|x] eqn:K.
  2:{ intros H. injection H as <-. contradiction. }
  intros H Hin. injection H as <-.
  apply scan_from in Hin as [[] | (n & Hn & Hv)].
  exists names, n. split; [reflexivity|]. split.
  - apply sort_keys_names in K. rewrite <- K.
    eapply Permutation_in; [|exact Hn].
    apply Permutation_map. symmetry. apply sort_entries_perm.
  - now apply visit_eligible.
Qed.

End Listing.

Lemma navigation_lists_only_eligible_witness :
  let item := mkItem "Drafts" "/posts/drafts" false true in
  exists names n,
    NavigationFacts.tree_iterdir NavigationFacts.posts = Return names /\
    In n names /\
    PyStr.startswith "." n = false /\
    n <> "index.md" /\
    NavigationFacts.tree_is_dir (NavigationFacts.posts ++ [n])
    = Return (is_dir item) /\
    (is_dir item = true ->
     NavigationFacts.tree_exists (NavigationFacts.posts ++ [n] ++ ["index.md"])
     = Return true) /\
    exists rel_path,
      relative_to (NavigationFacts.posts ++ [n]) NavigationFacts.content_root
      = Some rel_path /\
      url item = entry_url rel_path.
Proof.
  intros item.
  apply (navigation_lists_only_eligible NavigationFacts.tree_exists
           NavigationFacts.tree_is_dir NavigationFacts.tree_iterdir
           NavigationFacts.posts "/posts/hello-world"
           NavigationFacts.content_root
           [mkItem "Drafts" "/posts/drafts" false true;
            mkItem "Hello World" "/posts/hello-world" true false;
            mkItem "Post.Md" "/posts/post.bak" false false]).
  - reflexivity.
  - left. reflexivity.
Defined.

End NavigationListFacts.

(** ** The order of the navigation *)

Module NavigationOrderFacts.
Import PyPath Navigation SortFacts NavigationListFacts.

Definition key_le (a b : bool * string) : Prop := key_ltb b a = false.

Lemma key_ltb_asym (a b : bool * string) :
  key_ltb a b = true -> key_ltb b a = false.
Proof.
  unfold key_ltb. destruct a as [[] x], b as [[] y]; cbn; try congruence.
  - intros H. destruct (String.ltb y x) eqn:E; [|reflexivity].
    pose proof (ltb_trans _ _ _ H E) as C. now rewrite ltb_irrefl in C.
  - intros H. destruct (String.ltb y x) eqn:E; [|reflexivity].
    pose proof (ltb_trans _ _ _ H E) as C. now rewrite ltb_irrefl in C.
Qed.

Lemma string_le_trans (x y z : string) :
  String.ltb y x = false -> String.ltb z y = false -> String.ltb z x = false.
Proof.
  intros Hxy Hyz. destruct (String.ltb z x) eqn:E; [|reflexivity].
  destruct (String.eqb_spec y x) as [->|Hne]; [congruence|].
  pose proof (ltb_connected _ _ Hxy Hne) as Hlt.
  pose proof (ltb_trans _ _ _ E Hlt). congruence.
Qed.

Lemma key_le_trans (a b c : bool * string) :
  key_le a b -> key_le b c -> key_le a c.
Proof.
  unfold key_le, key_ltb.
  destruct a as [[] x], b as [[] y], c as [[] z]; cbn; try congruence;
    intros H1 H2; eapply string_le_trans; eassumption.
Qed.

Lemma insert_entry_sorted (x : bool * string) (l : list (bool * string)) :
  StronglySorted key_le l -> StronglySorted key_le (insert_entry x l).
Proof.
  intros Hs. induction Hs as [|y l Hs IH Hy]; cbn.
  - repeat constructor.
  - destruct (key_ltb y x) eqn:E.
    + constructor; [exact IH|].
      rewrite <- insert_entry_perm. constructor; [|exact Hy].
      now apply key_ltb_asym.
    + constructor; [now constructor|].
      constructor; [exact E|].
      eapply Forall_impl; [|exact Hy].
      intros z Hz. eapply key_le_trans; eassumption.
Qed.

Lemma sort_entries_sorted (l : list (bool * string)) :
  StronglySorted key_le (sort_entries l).
Proof.
  induction l as [|x l IH]; cbn; [constructor|].
  now apply insert_entry_sorted.
Qed.

(** In a sorted list of keys the files come after the directories. *)
Definition files_last (a b : bool * string) : Prop := fst a = true -> fst b = true.

Lemma key_le_files_last (a b : bool * string) : key_le a b -> files_last a b.
Proof.
  unfold key_le, key_ltb, files_last.
  destruct a as [[] x], b as [[] y]; cbn; congruence.
Qed.

(** In a navigation no file precedes a directory. *)
Definition dirs_first (a b : NavItem) : Prop := is_dir b = true -> is_dir a = true.

Lemma sorted_snoc {A} (R : A -> A -> Prop) (l : list A) (x : A) :
  StronglySorted R l -> Forall (fun a => R a x) l ->
  StronglySorted R (l ++ [x]).
Proof.
  intros Hs. induction Hs as [|y l Hs IH Hy]; intros Hall; cbn.
  - repeat constructor.
  - inversion Hall; subst. constructor; [now apply IH|].
    apply Forall_app. split; [exact Hy | now repeat constructor].
Qed.

Section Order.

Variable fs_exists : Path -> outcome bool.
Variable fs_is_dir : Path -> outcome bool.
Variable fs_iterdir : Path -> outcome (list string).
Variable folder : Path.
Variable current_url : string.
Variable root : Path.

(** The key of an entry tells whether it is a directory. *)
Definition key_right (k : bool * string) : Prop :=
  fs_is_dir (folder ++ [snd k]) = Return (negb (fst k)).

Lemma sort_keys_right (names : list string) (keys : list (bool * string)) :
  sort_keys fs_is_dir folder names = Return keys -> Forall key_right keys.
Proof.
  revert keys. induction names as [|n names IH]; intros keys; cbn.
  - intros H. injection H as <-. constructor.
  - destruct (fs_is_dir (folder ++ [n])) as [d|e] eqn:D; [|discriminate].
    cbn [Loader.bind].
    destruct (sort_keys fs_is_dir folder names) as [ks|e]; [|discriminate].
    cbn [Loader.bind]. intros H. injection H as <-.
    constructor; [|now apply IH].
    unfold key_right. cbn. now rewrite negb_involutive.
Qed.

Lemma scan_dirs_first (keys : list (bool * string)) :
  StronglySorted files_last keys -> Forall key_right keys ->
  forall items,
    StronglySorted dirs_first items ->
    (forall it k, In it items -> In k keys -> is_dir it = false -> fst k = true) ->
    StronglySorted dirs_first
      (scan fs_exists fs_is_dir folder current_url root (map snd keys) items).
Proof.
  intros Hs. induction Hs as [|k keys Hs IH Hk]; intros Hright items Hi Hcross.
  - exact Hi.
  - inversion Hright as [|? ? Hkr Hright']; subst. cbn [map scan].
    destruct (visit fs_exists fs_is_dir folder current_url root (snd k))
      as [[item|]|e] eqn:V.
    + apply visit_eligible in V as (_ & _ & Hd & _).
      unfold key_right in Hkr. rewrite Hkr in Hd. injection Hd as Hd.
      apply IH; [exact Hright' | |].
      * apply sorted_snoc; [exact Hi|].
        apply Forall_forall. intros it Hit Hdir.
        destruct (is_dir it) eqn:Eit; [reflexivity|].
        pose proof (Hcross it k Hit (or_introl eq_refl) Eit) as Hf.
        rewrite <- Hd, Hf in Hdir. discriminate.
      * intros it k' Hit Hk' Hfile.
        apply in_app_or in Hit as [Hit|[<-|[]]].
        -- apply (Hcross it k'); [exact Hit | now right | exact Hfile].
        -- rewrite Forall_forall in Hk. apply (Hk k' Hk').
           rewrite <- Hd in Hfile. now apply negb_false_iff in Hfile.
    + apply IH; [exact Hright' | exact Hi |].
      intros it k' Hit Hk'. apply (Hcross it k'); [exact Hit | now right].
    + exact Hi.
Qed.

(** X24.  Directories first: in the navigation no file comes before a
    directory. *)
Theorem navigation_directories_first (items : list NavItem) :
  get_directory_navigation fs_exists fs_is_dir fs_iterdir folder current_url
    root = Return items ->
  StronglySorted dirs_first items.
Proof.
  unfold get_directory_navigation.
  destruct (fs_exists folder) as [e|x]; [|discriminate]. cbn [Loader.bind].
  destruct (if e then fs_is_dir folder else Return false) as [d|x];
    [|discriminate].
  cbn [Loader.bind]. destruct d; cbn [negb].
  2:{ intros H. injection H as <-. constructor. }
  destruct (fs_iterdir folder) as [names|x]; cbn [Loader.bind].
  2:{ intros H. injection H as <-. constructor. }
  destruct (sort_keys fs_is_dir folder names) as [keys|x] eqn:K.
  2:{ intros H. injection H as <-. constructor. }
  intros H. injection H as <-.
  apply scan_dirs_first.
  - pose proof (sort_entries_sorted keys) as Hs.
    induction Hs as [|k l _ IHs Hk]; constructor; [exact IHs|].
    eapply Forall_impl; [|exact Hk]. apply key_le_files_last.
  - apply sort_keys_right in K.
    eapply Permutation_Forall; [apply sort_entries_perm | exact K].
  - constructor.
  - intros it k [].
Qed.

End Order.

Lemma navigation_directories_first_witness :
  StronglySorted dirs_first
    [mkItem "Drafts" "/posts/drafts" false true;
     mkItem "Hello World" "/posts/hello-world" true false;
     mkItem "Post.Md" "/posts/post.bak" false false].
Proof.
  apply (navigation_directories_first NavigationFacts.tree_exists
           NavigationFacts.tree_is_dir NavigationFacts.tree_iterdir
           NavigationFacts.posts "/posts/hello-world"
           NavigationFacts.content_root).
  reflexivity.
Defined.

End NavigationOrderFacts.

(** ** From the URL to the file *)

Module RouteFacts.
Import PyStr PyStrFacts PyPath SecurePath Templates Breadcrumbs Routes.
Import SecurePathFacts BreadcrumbFacts.

Lemma lstrip_keeps (c d : ascii) (s : string) :
  c <> d -> contains_char c (lstrip d s) = contains_char c s.
Proof.
  intros Hcd. induction s as [|a s IH]; [reflexivity|]. cbn.
  destruct (Ascii.eqb_spec a d) as [->|Hne]; [|reflexivity].
  rewrite IH. destruct (Ascii.eqb_spec d c) as [E|_]; [congruence | reflexivity].
Qed.

Lemma rstrip_keeps (c d : ascii) (s : string) :
  c <> d -> contains_char c (rstrip d s) = contains_char c s.
Proof.
  intros Hcd. induction s as [|a s IH]; [reflexivity|]. cbn.
  destruct (Ascii.eqb_spec a d) as [->|Hne]; cbn [andb].
  - destruct (String.eqb_spec (rstrip d s) "") as [E|_]; cbn.
    + rewrite E in IH. cbn in IH. rewrite <- IH.
      destruct (Ascii.eqb_spec d c) as [E'|_]; [congruence | reflexivity].
    + now rewrite IH.
  - cbn. now rewrite IH.
Qed.

(** Stripping one character keeps every other character. *)
Lemma strip_keeps (c d : ascii) (s : string) :
  c <> d -> contains_char c (strip d s) = contains_char c s.
Proof.
  intros Hcd. unfold strip. now rewrite rstrip_keeps, lstrip_keeps.
Qed.

Lemma rstrip_idempotent (c : ascii) (s : string) :
  rstrip c (rstrip c s) = rstrip c s.
Proof.
  induction s as [|a s IH]; [reflexivity|]. cbn.
  destruct (Ascii.eqb a c && (rstrip c s =? "")) eqn:E; [reflexivity|].
  cbn. now rewrite IH, E.
Qed.

Lemma strip_idempotent (c : ascii) (s : string) :
  strip c (strip c s) = strip c s.
Proof.
  unfold strip at 1. rewrite lstrip_fixed by apply strip_no_lead.
  unfold strip. apply rstrip_idempotent.
Qed.

Lemma is_relative_to_app (p other rest : Path) :
  is_relative_to p other = true -> is_relative_to (p ++ rest) other = true.
Proof.
  intros H. apply is_relative_to_inside in H as [r ->].
  apply is_relative_to_inside. exists (r ++ rest). now rewrite app_assoc.
Qed.

Lemma get_secure_target_inside
  (resolve : Path -> option Path) (user_path : string) (root p : Path) :
  get_secure_target resolve user_path root = Return p ->
  is_relative_to p root = true.
Proof.
  unfold get_secure_target.
  destruct (contains_char zero user_path); [discriminate|].
  destruct (resolve _) as [q|]; [|discriminate].
  destruct (is_relative_to q root) eqn:E; cbn [negb]; [|discriminate].
  intros H. injection H as <-. exact E.
Qed.

Lemma get_secure_target_resolved
  (resolve : Path -> option Path) (user_path : string) (root p : Path) :
  get_secure_target resolve user_path root = Return p ->
  resolve (joinpath root (strip "/"%char user_path)) = Some p.
Proof.
  unfold get_secure_target.
  destruct (contains_char zero user_path); [discriminate|].
  destruct (resolve _) as [q|]; [|discriminate].
  destruct (negb (is_relative_to q root)); [discriminate|].
  intros H. now injection H as <-.
Qed.

Section CatchAll.

Variable resolve : Path -> option Path.
Variable fs_is_dir : Path -> outcome bool.
Variable fs_exists : Path -> outcome bool.
Variable content_dir : Path.

Lemma existence_check_found
  (target_file f : Path) (is_index i : bool) (clean_path c : string) :
  existence_check fs_exists target_file is_index clean_path = Found f i c ->
  f = target_file /\ fs_exists f = Return true.
Proof.
  unfold existence_check.
  destruct (fs_exists target_file) as [[]|e] eqn:E; try discriminate.
  intros H. injection H as <- _ _. now split.
Qed.

(** X25.  The file that is loaded.  It exists and, as a path, has the
    content directory as a prefix.  A page file is the path that
    resolving [clean_path + ".md"] gave.  The index of a directory is
    [index.md] joined to the path that resolving the directory gave:
    the joined path is not resolved again, so nothing here says where
    an [index.md] that is a symbolic link leads. *)
Theorem locate_found_file
  (full_path : string) (f : Path) (i : bool) (c : string) :
  locate resolve fs_is_dir fs_exists content_dir full_path = Found f i c ->
  c = normalize full_path /\
  fs_exists f = Return true /\
  is_relative_to f content_dir = true /\
  if i then
    exists base,
      resolve (joinpath content_dir (strip "/"%char c)) = Some base /\
      is_relative_to base content_dir = true /\
      fs_is_dir base = Return true /\
      f = base ++ ["index.md"]
  else
    resolve (joinpath content_dir (strip "/"%char (c ++ ".md"))) = Some f.
Proof.
  unfold locate, secure.
  destruct (get_secure_target resolve (normalize full_path) content_dir)
    as [base|[]] eqn:B; try discriminate.
  pose proof (get_secure_target_inside _ _ _ _ B) as Hin.
  apply get_secure_target_resolved in B.
  destruct (fs_is_dir base) as [[]|e] eqn:D; [| |discriminate].
  - intros H. pose proof H as H'.
    apply existence_check_found in H as [-> He].
    unfold existence_check in H'. rewrite He in H'.
    injection H' as <- <-.
    unfold joinpath at 1 2. cbn [startswith String.prefix segments split
      filter nonempty String.eqb Ascii.eqb Bool.eqb negb andb].
    repeat split; try assumption.
    + now apply is_relative_to_app.
    + exists base. repeat split; assumption.
  - destruct (get_secure_target resolve (normalize full_path ++ ".md")
                content_dir) as [t|[]] eqn:T; try discriminate.
    pose proof (get_secure_target_inside _ _ _ _ T) as Hint.
    apply get_secure_target_resolved in T.
    intros H. pose proof H as H'.
    apply existence_check_found in H as [-> He].
    unfold existence_check in H'. rewrite He in H'.
    injection H' as <- <-.
    repeat split; assumption.
Qed.

(** X26.  A URL that holds a null byte is answered with the 404 page. *)
Theorem locate_null_byte (full_path : string) :
  contains_char zero full_path = true ->
  locate resolve fs_is_dir fs_exists content_dir full_path = NotFound.
Proof.
  intros Hz.
  assert (Hs : contains_char zero (strip "/"%char full_path) = true).
  { rewrite strip_keeps; [exact Hz | discriminate]. }
  unfold locate, secure, normalize.
  destruct (String.eqb_spec (strip "/"%char full_path) "") as [E|_].
  - rewrite E in Hs. discriminate.
  - unfold get_secure_target. now rewrite Hs.
Qed.

(** X27.  Slashes around the URL do not change what is served. *)
Theorem locate_ignores_outer_slashes (full_path : string) :
  locate resolve fs_is_dir fs_exists content_dir (strip "/"%char full_path)
  = locate resolve fs_is_dir fs_exists content_dir full_path.
Proof.
  unfold locate, normalize. now rewrite strip_idempotent.
Qed.

End CatchAll.

(** A content tree in which [posts/index.md] is a symbolic link to a
    file outside the content directory. *)
Definition linked_resolve (p : Path) : option Path :=
  if list_eq_dec string_dec p ["srv"; "content"; "posts"; "index.md"]
  then Some ["etc"; "passwd"] else fold_dotdot p.

Definition linked_is_dir (p : Path) : outcome bool :=
  Return (if list_eq_dec string_dec p ["srv"; "content"; "posts"]
          then true else false).

(** The directory URL is served by the linked [index.md]; the page URL
    of the same file is refused. *)
Lemma locate_found_file_witness :
  let f := ["srv"; "content"; "posts"; "index.md"] in
  ("posts" = normalize "/posts/" /\
   (fun _ : Path => Return true) f = Return true /\
   is_relative_to f ["srv"; "content"] = true /\
   exists base,
     linked_resolve (joinpath ["srv"; "content"] (strip "/"%char "posts"))
     = Some base /\
     is_relative_to base ["srv"; "content"] = true /\
     linked_is_dir base = Return true /\
     f = base ++ ["index.md"]) /\
  linked_resolve f = Some ["etc"; "passwd"] /\
  locate linked_resolve linked_is_dir (fun _ => Return true) ["srv"; "content"]
    "/posts/index" = NotFound.
Proof.
  intros f. split; [|split; reflexivity].
  apply (locate_found_file linked_resolve linked_is_dir (fun _ => Return true)
           ["srv"; "content"] "/posts/" f true "posts").
  reflexivity.
Defined.

Lemma locate_null_byte_witness :
  locate fold_dotdot (fun _ => Return false) (fun _ => Return true)
    ["srv"; "content"] (String "p" (String zero "q"))
  = NotFound.
Proof.
  apply (locate_null_byte fold_dotdot (fun _ => Return false)
           (fun _ => Return true) ["srv"; "content"]
           (String "p" (String zero "q"))).
  reflexivity.
Defined.

(** *** The default title *)

Lemma split_tail_nonempty (c : ascii) (s : string) (w : string) (ws : list string) :
  split c s = w :: ws -> ws <> [] -> s <> "".
Proof. intros H Hws ->. cbn in H. injection H as _ <-. contradiction. Qed.

Lemma last_cons_nonempty {A} (x : A) (l : list A) (d : A) :
  l <> [] -> last (x :: l) d = last l d.
Proof. destruct l; [contradiction | reflexivity]. Qed.

(** The last piece of a right-stripped string is not empty. *)
Lemma rstrip_last_piece (c : ascii) (s : string) :
  rstrip c s <> "" -> last (split c (rstrip c s)) "" <> "".
Proof.
  induction s as [|a s IH]; [contradiction|]. cbn [rstrip].
  destruct (Ascii.eqb a c && (rstrip c s =? "")) eqn:E; [contradiction|].
  intros _. cbn [split].
  destruct (Ascii.eqb_spec a c) as [->|Hne].
  - cbn [andb] in E. apply String.eqb_neq in E.
    rewrite last_cons_nonempty by apply split_not_nil. now apply IH.
  - destruct (split c (rstrip c s)) as [|w ws] eqn:S; [discriminate|].
    destruct ws as [|w' ws]; [discriminate|].
    rewrite last_cons_nonempty by discriminate.
    rewrite <- (last_cons_nonempty w (w' :: ws)) by discriminate.
    apply IH.
    eapply split_tail_nonempty; [exact S | discriminate].
Qed.

Lemma last_In {A} (l : list A) (d : A) : l <> [] -> In (last l d) l.
Proof.
  induction l as [|x l IH]; [contradiction|]. intros _.
  destruct l as [|y l]; [now left|].
  right. apply IH. discriminate.
Qed.

Lemma last_filter {A} (keep : A -> bool) (l : list A) (d : A) :
  l <> [] -> keep (last l d) = true -> last (filter keep l) d = last l d.
Proof.
  induction l as [|x l IH]; [contradiction|]. intros _ Hk.
  destruct l as [|y l].
  - cbn in *. now rewrite Hk.
  - change (last (x :: y :: l) d) with (last (y :: l) d) in *.
    assert (Hne : y :: l <> []) by discriminate.
    specialize (IH Hne Hk).
    cbn [filter]. destruct (keep x); [|exact IH].
    rewrite last_cons_nonempty; [exact IH|].
    intros Hnil.
    assert (Hin : In (last (y :: l) d) (filter keep (y :: l))).
    { apply filter_In. split; [now apply last_In | exact Hk]. }
    cbn [filter] in Hin. rewrite Hnil in Hin. destruct Hin.
Qed.

Lemma last_prefixes (parts : list string) (d : Crumb) :
  parts <> [] ->
  last (map (fun k => crumb_of (firstn k parts)) (seq 1 (length parts))) d
  = crumb_of parts.
Proof.
  intros Hne.
  destruct (length parts) as [|n] eqn:L.
  { destruct parts; [contradiction | discriminate]. }
  replace (seq 1 (S n)) with (seq 1 n ++ [S n]).
  2:{ replace (S n) with (n + 1) at 2 by lia. now rewrite seq_app. }
  rewrite map_app.
  change (map ?f [S n]) with [f (S n)].
  rewrite last_last. now rewrite <- L, firstn_all.
Qed.

(** X28.  When the front matter gives no title, the page is titled as its
    last breadcrumb is named. *)
Theorem default_title_is_last_crumb (full_path : string) (d : Crumb) :
  strip "/"%char full_path <> "" ->
  default_title (normalize full_path)
  = crumb_name (last (get_breadcrumbs full_path) d).
Proof.
  intros Hne. unfold normalize.
  destruct (String.eqb_spec (strip "/"%char full_path) "") as [E|_];
    [contradiction|].
  assert (Hlast : last (split "/"%char (strip "/"%char full_path)) "" <> "").
  { unfold strip in *. now apply rstrip_last_piece. }
  assert (Hparts : last (path_parts full_path) ""
                   = last (split "/"%char (strip "/"%char full_path)) "").
  { unfold path_parts. apply last_filter; [apply split_not_nil|].
    now apply nonempty_true. }
  assert (Hsome : path_parts full_path <> []).
  { intros Hnil. rewrite Hnil in Hparts. cbn in Hparts. congruence. }
  unfold get_breadcrumbs.
  rewrite (fold_step (path_parts full_path) [] "" [mkCrumb "Home" "/"])
    by reflexivity.
  cbn [app length].
  change ([mkCrumb "Home" "/"] ++ ?l) with (mkCrumb "Home" "/" :: l).
  rewrite last_cons_nonempty.
  2:{ destruct (path_parts full_path); [contradiction | discriminate]. }
  rewrite last_prefixes by exact Hsome.
  unfold default_title, crumb_of. cbn [crumb_name]. now rewrite Hparts.
Qed.

Lemma default_title_is_last_crumb_witness :
  default_title (normalize "/posts/my-first-post/")
  = crumb_name (last (get_breadcrumbs "/posts/my-first-post/") (mkCrumb "" "")).
Proof.
  apply (default_title_is_last_crumb "/posts/my-first-post/").
  discriminate.
Defined.

End RouteFacts.
